(** * cyber_recorder: the recording session of [cyber/tools/cyber_recorder/recorder.cc]

    A shallow embedding of [apollo::cyber::record::Recorder].  The recorder's
    collaborators (record writer, node, channel manager, clock) live outside
    the file; every call to one of them is kept as an event of a trace, and
    what the call returns is read from an environment that sees the trace so
    far.  Dereferencing a null smart pointer has no defined behaviour in C++
    and is the one way a computation of the model can fail. *)

From stdpp Require Import gmap strings list fin_maps pretty.
From Stdlib Require Import ZArith.

(** ** Messages of the bus *)

(** Modelled from the spec: the enum [proto::RoleType] is declared in a
    .proto file that is not among the sources.  A change event "carries a
    role-type tag" of which only the writer tag is acted on, so every other
    tag is kept apart from [ROLE_WRITER] and left open otherwise. *)
Inductive RoleType :=
  | ROLE_WRITER
  | ROLE_OTHER (tag : nat).

Global Instance RoleType_eq_dec : EqDecision RoleType.
Proof. solve_decision. Defined.

(** [proto::RoleAttributes]: optional protobuf fields.  [has_x ()] tells
    whether the field is set, the accessor gives the empty string when it is
    not. *)
Record RoleAttributes := {
  attr_channel_name : option string;
  attr_message_type : option string;
  attr_proto_desc : option string
}.

Definition has_field (f : option string) : bool :=
  match f with Some _ => true | None => false end.

Definition field_value (f : option string) : string := default "" f.

Definition empty (s : string) : bool :=
  match s with EmptyString => true | String _ _ => false end.

Record ChangeMsg := {
  role_type : RoleType;
  role_attr : RoleAttributes
}.

(** The payload a reader delivers; [std::shared_ptr<RawMessage>] is an
    [option], [None] being [nullptr]. *)
Definition RawMessage := string.

(** ** The recorder object *)

(** A smart pointer to a collaborator: only whether it is null is state of
    the recorder. *)
Inductive pointer := nullptr | pointee.

(** What [node_->CreateReader] was configured with ([ReaderConfig]). *)
Record Reader := {
  reader_channel_name : string;
  reader_pending_queue_size : nat
}.

Record Recorder := {
  output_ : string;
  all_channels_ : bool;
  channel_vec_ : list string;
  reader_pending_queue_size_ : nat;   (* record_conf_ *)
  is_started_ : bool;
  is_stopping_ : bool;
  writer_ : pointer;
  node_ : pointer;
  change_conn_ : bool;                (* what IsConnected () said of the handle *)
  channel_reader_map_ : gmap string Reader
}.

Inductive Severity := DEBUG | WARN | ERROR.

(** Calls that leave the recorder, with their arguments and results, and
    the lines it logs. *)
Inductive Event :=
  | EvLog (s : Severity) (text : string)
  | EvOpen (output : string) (ok : bool)
  | EvCreateNode (node_name : string) (ok : bool)
  | EvGetWriters (role_attr_vec : list RoleAttributes)
  | EvAddChangeListener (connected : bool)
  | EvRemoveChangeListener (conn : bool)
  | EvWriteChannel (channel_name message_type proto_desc : string) (ok : bool)
  | EvCreateReader (channel_name : string) (pending_queue_size : nat) (ok : bool)
  | EvWriteMessage (channel_name : string) (message : RawMessage) (time : Z) (ok : bool)
  | EvShowProgress
  | EvClose.

(** The recorder, whether a [shared_ptr] owns it at the moment (what
    [shared_from_this] and [weak_ptr::lock] ask), and the events so far in
    the order they happened. *)
Record World := {
  this : Recorder;
  owned : bool;
  trace : list Event
}.

(** The answers of the collaborators.  Each may depend on everything that
    happened before. *)
Record Env := {
  getpid : nat;
  Open_result : list Event → string → bool;
  CreateNode_result : list Event → string → bool;
  GetWriters_result : list Event → list RoleAttributes;
  AddChangeListener_result : list Event → bool;
  WriteChannel_result : list Event → string → string → string → bool;
  CreateReader_result : list Event → string → nat → bool;
  WriteMessage_result : list Event → string → RawMessage → Z → bool;
  Now_ToNanosecond : list Event → Z
}.

(** ** Field updates *)

Definition set_this (f : Recorder → Recorder) (w : World) : World :=
  {| this := f (this w); owned := owned w; trace := trace w |}.

Definition record (e : Event) (w : World) : World :=
  {| this := this w; owned := owned w; trace := trace w ++ [e] |}.

Definition with_is_started (b : bool) (r : Recorder) : Recorder :=
  {| output_ := output_ r; all_channels_ := all_channels_ r;
     channel_vec_ := channel_vec_ r;
     reader_pending_queue_size_ := reader_pending_queue_size_ r;
     is_started_ := b; is_stopping_ := is_stopping_ r;
     writer_ := writer_ r; node_ := node_ r; change_conn_ := change_conn_ r;
     channel_reader_map_ := channel_reader_map_ r |}.

Definition with_is_stopping (b : bool) (r : Recorder) : Recorder :=
  {| output_ := output_ r; all_channels_ := all_channels_ r;
     channel_vec_ := channel_vec_ r;
     reader_pending_queue_size_ := reader_pending_queue_size_ r;
     is_started_ := is_started_ r; is_stopping_ := b;
     writer_ := writer_ r; node_ := node_ r; change_conn_ := change_conn_ r;
     channel_reader_map_ := channel_reader_map_ r |}.

Definition with_writer (p : pointer) (r : Recorder) : Recorder :=
  {| output_ := output_ r; all_channels_ := all_channels_ r;
     channel_vec_ := channel_vec_ r;
     reader_pending_queue_size_ := reader_pending_queue_size_ r;
     is_started_ := is_started_ r; is_stopping_ := is_stopping_ r;
     writer_ := p; node_ := node_ r; change_conn_ := change_conn_ r;
     channel_reader_map_ := channel_reader_map_ r |}.

Definition with_node (p : pointer) (r : Recorder) : Recorder :=
  {| output_ := output_ r; all_channels_ := all_channels_ r;
     channel_vec_ := channel_vec_ r;
     reader_pending_queue_size_ := reader_pending_queue_size_ r;
     is_started_ := is_started_ r; is_stopping_ := is_stopping_ r;
     writer_ := writer_ r; node_ := p; change_conn_ := change_conn_ r;
     channel_reader_map_ := channel_reader_map_ r |}.

Definition with_change_conn (c : bool) (r : Recorder) : Recorder :=
  {| output_ := output_ r; all_channels_ := all_channels_ r;
     channel_vec_ := channel_vec_ r;
     reader_pending_queue_size_ := reader_pending_queue_size_ r;
     is_started_ := is_started_ r; is_stopping_ := is_stopping_ r;
     writer_ := writer_ r; node_ := node_ r; change_conn_ := c;
     channel_reader_map_ := channel_reader_map_ r |}.

Definition with_channel_reader_map (m : gmap string Reader) (r : Recorder) : Recorder :=
  {| output_ := output_ r; all_channels_ := all_channels_ r;
     channel_vec_ := channel_vec_ r;
     reader_pending_queue_size_ := reader_pending_queue_size_ r;
     is_started_ := is_started_ r; is_stopping_ := is_stopping_ r;
     writer_ := writer_ r; node_ := node_ r; change_conn_ := change_conn_ r;
     channel_reader_map_ := m |}.

Definition with_channel_vec (v : list string) (r : Recorder) : Recorder :=
  {| output_ := output_ r; all_channels_ := all_channels_ r;
     channel_vec_ := v;
     reader_pending_queue_size_ := reader_pending_queue_size_ r;
     is_started_ := is_started_ r; is_stopping_ := is_stopping_ r;
     writer_ := writer_ r; node_ := node_ r; change_conn_ := change_conn_ r;
     channel_reader_map_ := channel_reader_map_ r |}.

(** ** Computations on the world

    [None] is a null pointer dereference. *)

Definition M (A : Type) : Type := World → option (A * World).

Global Instance M_ret : MRet M := λ A a w, Some (a, w).

Global Instance M_bind : MBind M := λ A B k m w,
  match m w with
  | Some (a, w') => k a w'
  | None => None
  end.

Definition ret {A} (a : A) : M A := mret a.

Definition self : M Recorder := λ w, Some (this w, w).
Definition history : M (list Event) := λ w, Some (trace w, w).
Definition is_owned : M bool := λ w, Some (owned w, w).
Definition assign (f : Recorder → Recorder) : M unit := λ w, Some (tt, set_this f w).
Definition emit (e : Event) : M unit := λ w, Some (tt, record e w).
Definition log (s : Severity) (text : string) : M unit := emit (EvLog s text).

(** [p->...]: undefined when [p] is null. *)
Definition deref (p : Recorder → pointer) : M unit :=
  λ w, match p (this w) with
       | pointee => Some (tt, w)
       | nullptr => None
       end.

Fixpoint for_each {A} (f : A → M unit) (l : list A) : M unit :=
  match l with
  | [] => ret tt
  | a :: l' => f a;; for_each f l'
  end.

(** ** The member functions of [Recorder] *)

Section Recorder.

Variable env : Env.

(** Modelled from the spec: [Recorder::Recorder] sets [output_],
    [all_channels_] and [channel_vec_] and reads [record_conf_] from the
    global configuration (here an argument); the initial values of the other
    members are in recorder.h, which is not among the sources.  A session is
    "created in Idle", so both lifecycle flags start false, the pointers
    null, the connection handle unconnected and the reader map empty. *)
Definition Recorder_ctor (output : string) (all_channels : bool)
    (channel_vec : list string) (record_conf : nat) : Recorder :=
  {| output_ := output; all_channels_ := all_channels;
     channel_vec_ := channel_vec;
     reader_pending_queue_size_ := record_conf;
     is_started_ := false; is_stopping_ := false;
     writer_ := nullptr; node_ := nullptr; change_conn_ := false;
     channel_reader_map_ := ∅ |}.

(** [Recorder::ReaderCallback]. *)
Definition ReaderCallback (message : option RawMessage) (channel_name : string) : M unit :=
  r ← self;
  if negb (is_started_ r) || is_stopping_ r then
    log ERROR "record procedure is not started or stopping."
  else
    match message with
    | None => log ERROR ("message is nullptr, channel: " +:+ channel_name)
    | Some raw =>
        deref writer_;;
        h ← history;
        let now := Now_ToNanosecond env h in
        let ok := WriteMessage_result env h channel_name raw now in
        emit (EvWriteMessage channel_name raw now ok);;
        if negb ok then log ERROR ("write data fail, channel: " +:+ channel_name)
        else ret tt
    end.

(** The lambda [callback] that [InitReaderImpl] hands to the reader. *)
Definition callback (channel_name : string) (raw_message : option RawMessage) : M unit :=
  share_this ← is_owned;          (* weak_this.lock () *)
  if negb share_this then ret tt
  else
    ReaderCallback raw_message channel_name;;
    deref writer_;;
    emit EvShowProgress.

(** [Recorder::InitReaderImpl]. *)
Definition InitReaderImpl (channel_name message_type : string) : M bool :=
  managed ← is_owned;             (* shared_from_this () *)
  if negb managed then
    (* catch (const std::bad_weak_ptr& e) *)
    log ERROR "bad_weak_ptr";; ret false
  else
    r ← self;
    let size := reader_pending_queue_size_ r in
    deref node_;;
    h ← history;
    let reader := CreateReader_result env h channel_name size in
    emit (EvCreateReader channel_name size reader);;
    if negb reader then
      log ERROR "Create reader failed.";; ret false
    else
      assign (λ r, with_channel_reader_map
                     (<[channel_name :=
                          {| reader_channel_name := channel_name;
                             reader_pending_queue_size := size |}]>
                        (channel_reader_map_ r)) r);;
      ret true.

(** [Recorder::FindNewChannel]. *)
Definition FindNewChannel (role_attr : RoleAttributes) : M unit :=
  let channel_name := field_value (attr_channel_name role_attr) in
  let message_type := field_value (attr_message_type role_attr) in
  let proto_desc := field_value (attr_proto_desc role_attr) in
  if negb (has_field (attr_channel_name role_attr)) || empty channel_name then
    log WARN "change message not has a channel name or has an empty one."
  else if negb (has_field (attr_message_type role_attr)) || empty message_type then
    log WARN "Change message not has a message type or has an empty one."
  else if negb (has_field (attr_proto_desc role_attr)) || empty proto_desc then
    log WARN "Change message not has a proto desc or has an empty one."
  else
    r ← self;
    if negb (all_channels_ r)
       && bool_decide (list_find (λ c, c = channel_name) (channel_vec_ r) = None)
    then log DEBUG "New channel was found, but not in record list."
    else
      match channel_reader_map_ r !! channel_name with
      | Some _ => ret tt
      | None =>
          deref writer_;;
          h ← history;
          let ok := WriteChannel_result env h channel_name message_type proto_desc in
          emit (EvWriteChannel channel_name message_type proto_desc ok);;
          (if negb ok then log ERROR ("write channel fail, channel:" +:+ channel_name)
           else ret tt);;
          _ ← InitReaderImpl channel_name message_type;
          ret tt
      end.

(** [Recorder::TopologyCallback].  The debug line also prints the change
    message, which is left out of the logged text. *)
Definition TopologyCallback (change_message : ChangeMsg) : M unit :=
  log DEBUG "ChangeMsg in Topology Callback:";;
  if negb (bool_decide (role_type change_message = ROLE_WRITER)) then
    log DEBUG "Change message role type is not ROLE_WRITER."
  else FindNewChannel (role_attr change_message).

(** [Recorder::InitReadersImpl]. *)
Definition InitReadersImpl : M bool :=
  h ← history;
  let role_attr_vec := GetWriters_result env h in
  emit (EvGetWriters role_attr_vec);;
  for_each FindNewChannel role_attr_vec;;
  h ← history;
  let conn := AddChangeListener_result env h in
  emit (EvAddChangeListener conn);;
  assign (with_change_conn conn);;
  if negb conn then
    log ERROR "change connection is not connected";; ret false
  else ret true.

(** [Recorder::FreeReadersImpl]. *)
Definition FreeReadersImpl : M bool :=
  r ← self;
  emit (EvRemoveChangeListener (change_conn_ r));;
  ret true.

(** [Recorder::Start]. *)
Definition Start : M bool :=
  assign (with_writer pointee);;   (* writer_.reset (new RecordWriter ()) *)
  r ← self;
  deref writer_;;
  h ← history;
  let opened := Open_result env h (output_ r) in
  emit (EvOpen (output_ r) opened);;
  if negb opened then
    log ERROR "Datafile open file error.";; ret false
  else
    let node_name := "cyber_recorder_record_" +:+ pretty (getpid env) in
    h ← history;
    let created := CreateNode_result env h node_name in
    emit (EvCreateNode node_name created);;
    assign (with_node (if created then pointee else nullptr));;
    if negb created then
      log ERROR ("create node failed, node: " +:+ node_name);; ret false
    else
      ok ← InitReadersImpl;
      if negb ok then
        log ERROR " _init_readers error.";; ret false
      else
        assign (with_is_started true);;
        ret true.

(** [Recorder::Stop]. *)
Definition Stop : M bool :=
  r ← self;
  if negb (is_started_ r) || is_stopping_ r then ret false
  else
    assign (with_is_stopping true);;
    ok ← FreeReadersImpl;
    if negb ok then
      log ERROR " _free_readers error.";; ret false
    else
      deref writer_;;
      emit EvClose;;
      assign (with_node nullptr);;   (* node_.reset () *)
      ret true.

(** [Recorder::~Recorder]. *)
Definition Recorder_dtor : M unit :=
  _ ← Stop; ret tt.

End Recorder.

(** ** What the claims speak about *)

(** The lifecycle state [Started]: started and not yet stopping. *)
Definition started (r : Recorder) : bool :=
  is_started_ r && negb (is_stopping_ r).

(** A field of a descriptor that is absent or empty. *)
Definition absent_or_empty (f : option string) : Prop :=
  f = None ∨ f = Some "".

(** The selection policy lets the channel name through. *)
Definition selected (r : Recorder) (channel_name : string) : Prop :=
  all_channels_ r = true ∨ channel_name ∈ channel_vec_ r.

(** Successful reader creations for [name] in a trace, and whether the
    recorder holds a reader for [name]. *)
Definition is_subscription (name : string) (e : Event) : bool :=
  match e with
  | EvCreateReader c _ true => bool_decide (c = name)
  | _ => false
  end.

Definition subscriptions (name : string) (t : list Event) : nat :=
  length (List.filter (is_subscription name) t).

Definition held (name : string) (r : Recorder) : nat :=
  match channel_reader_map_ r !! name with Some _ => 1 | None => 0 end.

(** Calls of [WriteChannel] and [CreateReader] for [name] in a trace. *)
Definition concerns (name : string) (e : Event) : bool :=
  match e with
  | EvWriteChannel c _ _ _ => bool_decide (c = name)
  | EvCreateReader c _ _ => bool_decide (c = name)
  | _ => false
  end.

(** Calls of [WriteMessage] in a trace. *)
Definition is_append (e : Event) : bool :=
  match e with EvWriteMessage _ _ _ _ => true | _ => false end.

(** Registrations of the change listener in a trace. *)
Definition is_listener_registration (e : Event) : bool :=
  match e with EvAddChangeListener _ => true | _ => false end.

(** What the bus tells the recorder about channels: an entry of the
    snapshot [InitReadersImpl] walks through, or a change message handed to
    the registered listener. *)
Inductive Notification :=
  | SnapshotEntry (role_attr : RoleAttributes)
  | ChangeEvent (change_message : ChangeMsg).

Definition notify (env : Env) (n : Notification) : M unit :=
  match n with
  | SnapshotEntry role_attr => FindNewChannel env role_attr
  | ChangeEvent change_message => TopologyCallback env change_message
  end.

(** The world in which [FindNewChannel] calls [InitReaderImpl]: after
    [WriteChannel] and, when that failed, the line logged for it. *)
Definition after_WriteChannel (env : Env) (a : RoleAttributes) (w : World) : World :=
  let c := field_value (attr_channel_name a) in
  let t := field_value (attr_message_type a) in
  let d := field_value (attr_proto_desc a) in
  let ok := WriteChannel_result env (trace w) c t d in
  let w1 := record (EvWriteChannel c t d ok) w in
  if ok then w1 else record (EvLog ERROR ("write channel fail, channel:" +:+ c)) w1.

(** Events [FindNewChannel] may produce: log lines, and calls for channels
    the policy selects. *)
Definition reconcile_event (r : Recorder) (e : Event) : Prop :=
  match e with
  | EvLog _ _ => True
  | EvWriteChannel c _ _ _ | EvCreateReader c _ _ => selected r c
  | _ => False
  end.

(** From [w] to [w']: nothing but the reader map changed, the new events are
    log lines and calls for selected channels, every new reader in the map
    was created once and for a selected channel that had none. *)
Record reconciled (w w' : World) : Prop := {
  rec_owned : owned w' = owned w;
  rec_this :
    this w' = with_channel_reader_map (channel_reader_map_ (this w')) (this w);
  rec_trace :
    ∃ evs, trace w' = trace w ++ evs ∧ Forall (reconcile_event (this w)) evs;
  rec_books : ∀ name,
    subscriptions name (trace w') + held name (this w)
    = subscriptions name (trace w) + held name (this w');
  rec_map : ∀ name,
    channel_reader_map_ (this w') !! name = channel_reader_map_ (this w) !! name
    ∨ (channel_reader_map_ (this w) !! name = None ∧ selected (this w) name)
}.

(** The world [Stop] leaves behind when it tears the session down. *)
Definition torn_down (w : World) : World :=
  set_this (with_node nullptr)
    (record EvClose
       (record (EvRemoveChangeListener (change_conn_ (this w)))
          (set_this (with_is_stopping true) w))).

(** Events [ReaderCallback] may produce. *)
Definition delivery_event (e : Event) : Prop :=
  match e with
  | EvLog _ _ | EvWriteMessage _ _ _ _ => True
  | _ => False
  end.

(** The events from [w] to a later world [w']. *)
Definition since (w w' : World) : list Event :=
  drop (length (trace w)) (trace w').

(** C9 as the spec has it: the delivery lambda reports progress only when
    a payload was appended. *)
Definition progress_only_after_append (env : Env) (channel_name : string)
    (message : option RawMessage) (w : World) : Prop :=
  ∀ w', callback env channel_name message w = Some (tt, w') →
        EvShowProgress ∈ since w w' →
        ∃ c m t, EvWriteMessage c m t true ∈ since w w'.

(** What a client or the bus may do to a session, in any order. *)
Inductive Call :=
  | CallStart
  | CallStop
  | OnChange (change_message : ChangeMsg)
  | OnMessage (channel_name : string) (raw_message : option RawMessage).

Definition call (env : Env) (c : Call) : M unit :=
  match c with
  | CallStart => _ ← Start env; ret tt
  | CallStop => _ ← Stop; ret tt
  | OnChange change_message => TopologyCallback env change_message
  | OnMessage channel_name raw_message => callback env channel_name raw_message
  end.

(** From [w] to [w'], readers created and readers held changed alike. *)
Definition kept_books (w w' : World) : Prop :=
  ∀ name, subscriptions name (trace w') + held name (this w)
          = subscriptions name (trace w) + held name (this w').

(** A descriptor [FindNewChannel] does not turn away for its fields, and
    the channel it names. *)
Definition usable (a : RoleAttributes) : Prop :=
  ¬ absent_or_empty (attr_channel_name a)
  ∧ ¬ absent_or_empty (attr_message_type a)
  ∧ ¬ absent_or_empty (attr_proto_desc a).

Definition channel_of (a : RoleAttributes) : string :=
  field_value (attr_channel_name a).

(** The reader [InitReaderImpl] stores for a channel. *)
Definition reader_for (r : Recorder) (channel_name : string) : Reader :=
  {| reader_channel_name := channel_name;
     reader_pending_queue_size := reader_pending_queue_size_ r |}.

Definition is_CreateReader (e : Event) : bool :=
  match e with EvCreateReader _ _ _ => true | _ => false end.

(** From [w] to [w'] over calls on the session: the construction parameters
    are the same, stopping once begun has not been undone, no reader was
    dropped or replaced, every new reader is the one [InitReaderImpl] makes
    for a selected channel, and nothing was appended if stopping had
    begun. *)
Record evolves (w w' : World) : Prop := {
  ev_owned : owned w' = owned w;
  ev_output : output_ (this w') = output_ (this w);
  ev_all_channels : all_channels_ (this w') = all_channels_ (this w);
  ev_channel_vec : channel_vec_ (this w') = channel_vec_ (this w);
  ev_record_conf :
    reader_pending_queue_size_ (this w') = reader_pending_queue_size_ (this w);
  ev_stopping : is_stopping_ (this w) = true → is_stopping_ (this w') = true;
  ev_keep : ∀ name rd,
    channel_reader_map_ (this w) !! name = Some rd →
    channel_reader_map_ (this w') !! name = Some rd;
  ev_new : ∀ name rd,
    channel_reader_map_ (this w') !! name = Some rd →
    channel_reader_map_ (this w) !! name = Some rd
    ∨ (selected (this w) name ∧ rd = reader_for (this w) name);
  ev_quiet :
    is_stopping_ (this w) = true →
    List.filter is_append (trace w') = List.filter is_append (trace w)
}.

(** A session that holds a reader or is started has its writer. *)
Definition writer_in_place (w : World) : Prop :=
  (is_started_ (this w) = true ∨ channel_reader_map_ (this w) ≠ ∅) →
  writer_ (this w) = pointee.

(** ** Fixtures: a bus that answers as told, and sessions on it *)

Definition bus (snapshot : list RoleAttributes)
    (listener_ok write_channel_ok write_message_ok : bool) : Env :=
  {| getpid := 4711;
     Open_result := λ _ _, true;
     CreateNode_result := λ _ _, true;
     GetWriters_result := λ _, snapshot;
     AddChangeListener_result := λ _, listener_ok;
     WriteChannel_result := λ _ _ _ _, write_channel_ok;
     CreateReader_result := λ _ _ _, true;
     WriteMessage_result := λ _ _ _ _, write_message_ok;
     Now_ToNanosecond := λ h, Z.of_nat (S (length h)) |}.

Definition chatter : RoleAttributes :=
  {| attr_channel_name := Some "/chatter";
     attr_message_type := Some "T";
     attr_proto_desc := Some "S" |}.

Definition fresh (all_channels : bool) (channel_vec : list string) : World :=
  {| this := Recorder_ctor "out.record" all_channels channel_vec 10;
     owned := true; trace := [] |}.

(** A session that was started on an empty bus. *)
Definition idle_bus_started (all_channels : bool) (channel_vec : list string) : World :=
  match Start (bus [] true true true) (fresh all_channels channel_vec) with
  | Some (_, w) => w
  | None => fresh all_channels channel_vec
  end.

(** Sessions the claims are tried on: started with [/chatter] on the bus,
    and the same session after [Stop]. *)
Definition chatter_session : World :=
  match Start (bus [chatter] true true true) (fresh true []) with
  | Some (_, w) => w
  | None => fresh true []
  end.

Definition stopped_session : World :=
  match Stop chatter_session with
  | Some (_, w) => w
  | None => chatter_session
  end.

(** A recorder that no [shared_ptr] owns, with its writer and node. *)
Definition unmanaged_session : World :=
  {| this := this (idle_bus_started true []); owned := false;
     trace := trace (idle_bus_started true []) |}.



(** ** Proof tools *)

Ltac unfold_M :=
  unfold ret, log, emit, assign, deref, self, history, is_owned;
  unfold mbind, M_bind, mret, M_ret; simpl.

Ltac cases := repeat (case_match; simplify_eq/=; try done).

(** [Forall P [e1; ...; en]], each [P ei] by computation or assumption. *)
Ltac all_events :=
  repeat (apply List.Forall_cons; [by simpl|]); apply List.Forall_nil.

(** Counting readers created along a trace that grows by single events. *)
Ltac count_subscriptions :=
  simpl in *; unfold subscriptions, held in *;
  rewrite ?List.filter_app, ?length_app in *; simpl in *; lia.

(** ** The member functions, branch by branch *)

Lemma subscriptions_app name t1 t2 :
  subscriptions name (t1 ++ t2) = subscriptions name t1 + subscriptions name t2.
Proof. unfold subscriptions. by rewrite List.filter_app, length_app. Qed.

Lemma not_found_iff (x : string) (l : list string) :
  list_find (λ c, c = x) l = None ↔ x ∉ l.
Proof.
  rewrite list_find_None, Forall_forall. split.
  - intros H Hin. by apply (H x).
  - by intros H y Hy ->.
Qed.

Lemma absent_or_empty_check f :
  absent_or_empty f ↔ negb (has_field f) || empty (field_value f) = true.
Proof.
  unfold absent_or_empty. destruct f as [[|]|]; simpl; intuition congruence.
Qed.

Lemma present_check f :
  ¬ absent_or_empty f ↔ negb (has_field f) || empty (field_value f) = false.
Proof.
  rewrite absent_or_empty_check.
  destruct (negb (has_field f) || empty (field_value f)); intuition congruence.
Qed.

Lemma InitReaderImpl_unmanaged env c t w :
  owned w = false →
  InitReaderImpl env c t w = Some (false, record (EvLog ERROR "bad_weak_ptr") w).
Proof. intros H. unfold InitReaderImpl. unfold_M. by rewrite H. Qed.

Lemma InitReaderImpl_managed env c t w :
  owned w = true → node_ (this w) = pointee →
  let q := reader_pending_queue_size_ (this w) in
  let ok := CreateReader_result env (trace w) c q in
  let w1 := record (EvCreateReader c q ok) w in
  InitReaderImpl env c t w =
    if ok then
      Some (true, set_this (with_channel_reader_map
                              (<[c := {| reader_channel_name := c;
                                         reader_pending_queue_size := q |}]>
                                 (channel_reader_map_ (this w)))) w1)
    else Some (false, record (EvLog ERROR "Create reader failed.") w1).
Proof.
  intros Ho Hn. unfold InitReaderImpl. unfold_M.
  rewrite Ho; simpl. rewrite Hn; simpl.
  by destruct (CreateReader_result _ _ _ _).
Qed.

Lemma InitReaderImpl_null_node env c t w :
  owned w = true → node_ (this w) = nullptr → InitReaderImpl env c t w = None.
Proof.
  intros Ho Hn. unfold InitReaderImpl. unfold_M.
  rewrite Ho; simpl. by rewrite Hn.
Qed.

Lemma FindNewChannel_invalid env a w :
  absent_or_empty (attr_channel_name a) ∨ absent_or_empty (attr_message_type a)
  ∨ absent_or_empty (attr_proto_desc a) →
  ∃ line, FindNewChannel env a w = Some (tt, record (EvLog WARN line) w).
Proof.
  rewrite !absent_or_empty_check. unfold FindNewChannel. unfold_M.
  intros H.
  destruct (negb (has_field (attr_channel_name a)) || _); [by eexists|].
  destruct (negb (has_field (attr_message_type a)) || _); [by eexists|].
  destruct (negb (has_field (attr_proto_desc a)) || _); [by eexists|].
  intuition congruence.
Qed.

Lemma FindNewChannel_valid env a w :
  ¬ absent_or_empty (attr_channel_name a) → ¬ absent_or_empty (attr_message_type a) →
  ¬ absent_or_empty (attr_proto_desc a) →
  let c := field_value (attr_channel_name a) in
  FindNewChannel env a w =
    if negb (all_channels_ (this w))
       && bool_decide (list_find (λ x, x = c) (channel_vec_ (this w)) = None)
    then Some (tt, record (EvLog DEBUG "New channel was found, but not in record list.") w)
    else match channel_reader_map_ (this w) !! c with
         | Some _ => Some (tt, w)
         | None =>
             match writer_ (this w) with
             | nullptr => None
             | pointee =>
                 match InitReaderImpl env c (field_value (attr_message_type a))
                         (after_WriteChannel env a w) with
                 | Some (_, w') => Some (tt, w')
                 | None => None
                 end
             end
         end.
Proof.
  rewrite !present_check. intros H1 H2 H3. unfold FindNewChannel.
  rewrite H1, H2, H3. unfold after_WriteChannel. unfold_M.
  destruct (negb _ && _); [done|].
  destruct (_ !! _); [done|].
  destruct (writer_ _); [done|]. simpl.
  by destruct (WriteChannel_result _ _ _ _ _).
Qed.

Lemma with_channel_reader_map_same r :
  r = with_channel_reader_map (channel_reader_map_ r) r.
Proof. by destruct r. Qed.

Lemma reconciled_refl w : reconciled w w.
Proof.
  split; auto using with_channel_reader_map_same.
  exists []. by rewrite app_nil_r.
Qed.

Lemma reconciled_log s line w : reconciled w (record (EvLog s line) w).
Proof.
  split; simpl; auto using with_channel_reader_map_same.
  - eexists. split; [done|]. all_events.
  - intros name. by rewrite subscriptions_app, Nat.add_0_r.
Qed.

Lemma selected_reconciled w w' c :
  reconciled w w' → selected (this w') c ↔ selected (this w) c.
Proof. intros [_ H _ _ _]. unfold selected. by rewrite H. Qed.

Lemma reconciled_trans w1 w2 w3 :
  reconciled w1 w2 → reconciled w2 w3 → reconciled w1 w3.
Proof.
  intros H12 H23.
  pose proof (λ c, selected_reconciled w1 w2 c H12) as Hsel.
  destruct H12 as [Ho1 Ht1 (e1 & He1 & Hf1) Hb1 Hm1].
  destruct H23 as [Ho2 Ht2 (e2 & He2 & Hf2) Hb2 Hm2].
  split.
  - congruence.
  - rewrite Ht2 at 1. by rewrite Ht1.
  - exists (e1 ++ e2). split.
    + by rewrite He2, He1, app_assoc.
    + apply Forall_app. split; [done|].
      eapply Forall_impl; [exact Hf2|].
      intros [] ?; simpl in *; try done; by apply Hsel.
  - intros name. specialize (Hb1 name). specialize (Hb2 name). lia.
  - intros name. destruct (Hm1 name) as [E1|[Hn1 Hs1]]; [|by right].
    destruct (Hm2 name) as [E2|[Hn2 Hs2]].
    + left. congruence.
    + right. split; [congruence|]. by apply Hsel.
Qed.

Lemma InitReaderImpl_reconciled env c t w b w' :
  selected (this w) c → channel_reader_map_ (this w) !! c = None →
  InitReaderImpl env c t w = Some (b, w') → reconciled w w'.
Proof.
  intros Hsel Hnone.
  destruct (owned w) eqn:Ho.
  - destruct (node_ (this w)) eqn:Hn.
    { by rewrite InitReaderImpl_null_node. }
    rewrite InitReaderImpl_managed by done. simpl.
    destruct (CreateReader_result _ _ _ _) eqn:Hok; intros [= <- <-].
    + split; simpl; auto.
      * eexists. split; [done|]. all_events.
      * intros name. rewrite subscriptions_app. unfold subscriptions, held. simpl.
        rewrite lookup_insert.
        destruct (decide (c = name)) as [->|Hne].
        -- rewrite bool_decide_true, Hnone by done. simpl. lia.
        -- rewrite bool_decide_false by done. simpl. lia.
      * intros name. rewrite lookup_insert.
        destruct (decide (c = name)) as [->|Hne]; auto.
    + split; simpl; auto using with_channel_reader_map_same.
      * exists [EvCreateReader c (reader_pending_queue_size_ (this w)) false;
                EvLog ERROR "Create reader failed."].
        split; [by rewrite <- app_assoc|]. all_events.
      * intros name. rewrite !subscriptions_app. unfold subscriptions. simpl.
        lia.
  - rewrite InitReaderImpl_unmanaged by done. intros [= <- <-].
    apply reconciled_log.
Qed.

Lemma after_WriteChannel_reconciled env a w :
  selected (this w) (field_value (attr_channel_name a)) →
  reconciled w (after_WriteChannel env a w)
  ∧ this (after_WriteChannel env a w) = this w
  ∧ owned (after_WriteChannel env a w) = owned w.
Proof.
  intros Hsel. unfold after_WriteChannel.
  destruct (WriteChannel_result _ _ _ _ _); simpl; (split; [|done]).
  - split; simpl; auto using with_channel_reader_map_same.
    + eexists. split; [done|]. all_events.
    + intros name. rewrite subscriptions_app. unfold subscriptions. simpl. lia.
  - split; simpl; auto using with_channel_reader_map_same.
    + eexists. split; [by rewrite <- app_assoc|]. all_events.
    + intros name. rewrite !subscriptions_app. unfold subscriptions. simpl. lia.
Qed.

Lemma validity_dec a :
  (absent_or_empty (attr_channel_name a) ∨ absent_or_empty (attr_message_type a)
   ∨ absent_or_empty (attr_proto_desc a))
  ∨ (¬ absent_or_empty (attr_channel_name a) ∧ ¬ absent_or_empty (attr_message_type a)
     ∧ ¬ absent_or_empty (attr_proto_desc a)).
Proof.
  rewrite !present_check, !absent_or_empty_check.
  destruct (negb _ || _), (negb _ || _), (negb _ || _); auto.
Qed.

Lemma FindNewChannel_reconciled env a w w' :
  FindNewChannel env a w = Some (tt, w') → reconciled w w'.
Proof.
  destruct (validity_dec a) as [Hbad|(H1 & H2 & H3)].
  { destruct (FindNewChannel_invalid env a w Hbad) as [line ->].
    intros [= <-]. apply reconciled_log. }
  rewrite FindNewChannel_valid by done. simpl.
  destruct (negb _ && _) eqn:Hpol.
  { intros [= <-]. apply reconciled_log. }
  destruct (_ !! _) eqn:Hmap.
  { intros [= <-]. apply reconciled_refl. }
  destruct (writer_ _); [done|].
  assert (selected (this w) (field_value (attr_channel_name a))) as Hsel.
  { unfold selected. apply andb_false_iff in Hpol as [Hall|Hin].
    - left. by destruct (all_channels_ _).
    - right. apply bool_decide_eq_false in Hin.
      destruct (decide (field_value (attr_channel_name a) ∈ channel_vec_ (this w)));
        [done|]. by apply not_found_iff in n. }
  destruct (after_WriteChannel_reconciled env a w Hsel) as (Hrec & Hthis & Hown).
  destruct (InitReaderImpl _ _ _ _) as [[b w1]|] eqn:Hinit; [|done].
  intros [= <-]. eapply reconciled_trans; [exact Hrec|].
  eapply InitReaderImpl_reconciled; [| |exact Hinit]; by rewrite Hthis.
Qed.

Lemma FindNewChannel_defined env a w :
  writer_ (this w) = pointee → node_ (this w) = pointee →
  ∃ w', FindNewChannel env a w = Some (tt, w').
Proof.
  intros Hw Hn.
  destruct (validity_dec a) as [Hbad|(H1 & H2 & H3)].
  { destruct (FindNewChannel_invalid env a w Hbad) as [line ->]. by eexists. }
  rewrite FindNewChannel_valid by done. simpl.
  destruct (negb _ && _); [by eexists|].
  destruct (_ !! _); [by eexists|].
  rewrite Hw.
  assert (this (after_WriteChannel env a w) = this w
          ∧ owned (after_WriteChannel env a w) = owned w) as [Hthis Hown].
  { unfold after_WriteChannel. by destruct (WriteChannel_result _ _ _ _ _). }
  destruct (owned w) eqn:Ho.
  - rewrite InitReaderImpl_managed by (by rewrite ?Hthis, ?Hown). simpl.
    destruct (CreateReader_result _ _ _ _); by eexists.
  - rewrite InitReaderImpl_unmanaged by (by rewrite Hown). by eexists.
Qed.

Lemma TopologyCallback_reconciled env m w w' :
  TopologyCallback env m w = Some (tt, w') → reconciled w w'.
Proof.
  unfold TopologyCallback. unfold_M.
  destruct (bool_decide _); simpl.
  - intros H. eapply reconciled_trans; [|exact (FindNewChannel_reconciled _ _ _ _ H)].
    apply reconciled_log.
  - intros [= <-].
    eapply reconciled_trans; [apply reconciled_log|].
    apply (reconciled_log DEBUG _ (record _ w)).
Qed.

Lemma TopologyCallback_defined env m w :
  writer_ (this w) = pointee → node_ (this w) = pointee →
  ∃ w', TopologyCallback env m w = Some (tt, w').
Proof.
  intros Hw Hn. unfold TopologyCallback. unfold_M.
  destruct (bool_decide _); simpl; [|by eexists].
  by apply FindNewChannel_defined.
Qed.

Lemma notify_reconciled env n w w' :
  notify env n w = Some (tt, w') → reconciled w w'.
Proof.
  destruct n; simpl;
    eauto using FindNewChannel_reconciled, TopologyCallback_reconciled.
Qed.

Lemma notify_defined env n w :
  writer_ (this w) = pointee → node_ (this w) = pointee →
  ∃ w', notify env n w = Some (tt, w').
Proof.
  destruct n; simpl; eauto using FindNewChannel_defined, TopologyCallback_defined.
Qed.

Lemma reconciled_pointers w w' :
  reconciled w w' →
  writer_ (this w') = writer_ (this w) ∧ node_ (this w') = node_ (this w).
Proof. intros [_ H _ _ _]. by rewrite H. Qed.

(** A walk over a list of descriptors or notifications never fails once the
    writer and the node exist, and it only reconciles. *)
Lemma for_each_reconciles {A} (f : A → M unit) (l : list A) :
  (∀ a w w', f a w = Some (tt, w') → reconciled w w') →
  (∀ a w, writer_ (this w) = pointee → node_ (this w) = pointee →
          ∃ w', f a w = Some (tt, w')) →
  ∀ w, writer_ (this w) = pointee → node_ (this w) = pointee →
       ∃ w', for_each f l w = Some (tt, w') ∧ reconciled w w'.
Proof.
  intros Hrec Hdef. induction l as [|a l IH]; intros w Hw Hn; simpl.
  - exists w. split; [done|]. apply reconciled_refl.
  - destruct (Hdef a w Hw Hn) as [w1 H1].
    pose proof (Hrec _ _ _ H1) as R1.
    destruct (reconciled_pointers _ _ R1) as [Hw1 Hn1].
    destruct (IH w1) as (w2 & H2 & R2); [congruence..|].
    exists w2. split; [|by eapply reconciled_trans].
    unfold mbind, M_bind. by rewrite H1.
Qed.

Lemma lifecycle_guard r :
  negb (is_started_ r) || is_stopping_ r = negb (started r).
Proof. unfold started. by destruct (is_started_ r), (is_stopping_ r). Qed.

Lemma not_started_iff r :
  is_started_ r = false ∨ is_stopping_ r = true ↔ started r = false.
Proof.
  unfold started. destruct (is_started_ r), (is_stopping_ r); simpl;
    intuition congruence.
Qed.

Lemma Stop_refused w : started (this w) = false → Stop w = Some (false, w).
Proof.
  intros H. unfold Stop. unfold_M. by rewrite lifecycle_guard, H.
Qed.

Lemma Stop_tears_down w :
  started (this w) = true → writer_ (this w) = pointee →
  Stop w = Some (true, torn_down w).
Proof.
  intros H Hw. unfold Stop, FreeReadersImpl. unfold_M.
  rewrite lifecycle_guard, H. simpl. by rewrite Hw.
Qed.

Lemma torn_down_not_started w : started (this (torn_down w)) = false.
Proof. unfold started. simpl. by rewrite andb_false_r. Qed.

Lemma ReaderCallback_refused env message channel_name w :
  started (this w) = false →
  ReaderCallback env message channel_name w
  = Some (tt, record (EvLog ERROR "record procedure is not started or stopping.") w).
Proof.
  intros H. unfold ReaderCallback. unfold_M. by rewrite lifecycle_guard, H.
Qed.

(** [ReaderCallback] never touches the recorder and never fails while the
    writer exists. *)
Lemma ReaderCallback_defined env message channel_name w :
  writer_ (this w) = pointee →
  ∃ w' evs, ReaderCallback env message channel_name w = Some (tt, w')
            ∧ this w' = this w ∧ owned w' = owned w
            ∧ trace w' = trace w ++ evs ∧ Forall delivery_event evs.
Proof.
  intros Hw. unfold ReaderCallback. unfold_M.
  destruct (negb _ || _).
  { eexists _, [_]. split_and!; try done. all_events. }
  destruct message.
  2: { eexists _, [_]. split_and!; try done. all_events. }
  rewrite Hw. simpl. destruct (WriteMessage_result _ _ _ _ _); simpl.
  - eexists _, [_]. split_and!; try done. all_events.
  - eexists _, [_; _]. split_and!; try done; simpl;
      [by rewrite <- app_assoc|all_events].
Qed.

(** [Stop] never frees a reader. *)
Lemma Stop_keeps_readers w b w' :
  Stop w = Some (b, w') →
  channel_reader_map_ (this w') = channel_reader_map_ (this w).
Proof.
  unfold Stop, FreeReadersImpl. unfold_M.
  destruct (negb _ || _); simpl; [by intros [= <- <-]|].
  destruct (writer_ _); [done|]. by intros [= <- <-].
Qed.

Lemma since_app w w' evs : trace w' = trace w ++ evs → since w w' = evs.
Proof. intros H. unfold since. by rewrite H, drop_app_length. Qed.

Lemma reconcile_event_not_registration r e :
  reconcile_event r e → is_listener_registration e = false.
Proof. by destruct e. Qed.

Lemma InitReadersImpl_outcome env w :
  writer_ (this w) = pointee → node_ (this w) = pointee →
  let role_attr_vec := GetWriters_result env (trace w) in
  ∃ w1 evs,
    for_each (FindNewChannel env) role_attr_vec (record (EvGetWriters role_attr_vec) w)
    = Some (tt, w1)
    ∧ reconciled (record (EvGetWriters role_attr_vec) w) w1
    ∧ trace w1 = trace w ++ EvGetWriters role_attr_vec :: evs
    ∧ Forall (reconcile_event (this w)) evs
    ∧ let conn := AddChangeListener_result env (trace w1) in
      InitReadersImpl env w
      = Some (conn,
              (if conn then id
               else record (EvLog ERROR "change connection is not connected"))
                (set_this (with_change_conn conn) (record (EvAddChangeListener conn) w1))).
Proof.
  intros Hw Hn l.
  destruct (for_each_reconciles (FindNewChannel env) l (FindNewChannel_reconciled env)
              (FindNewChannel_defined env) (record (EvGetWriters l) w) Hw Hn)
    as (w1 & Hrun & Hrec).
  destruct (rec_trace _ _ Hrec) as (evs & Htr & Hev).
  exists w1, evs. split_and!; try done.
  - rewrite Htr. simpl. by rewrite <- app_assoc.
  - unfold InitReadersImpl. unfold_M. fold l. rewrite Hrun. simpl.
    by destruct (AddChangeListener_result _ _).
Qed.

Lemma Start_outcome env w :
  ∃ b w' evs,
    Start env w = Some (b, w')
    ∧ trace w' = trace w ++ evs
    ∧ (EvAddChangeListener false ∈ evs → b = false)
    ∧ (b = true → last evs = Some (EvAddChangeListener true)).
Proof.
  unfold Start. unfold_M.
  destruct (Open_result _ _ _) eqn:Hopen; simpl.
  2: { eexists _, _, [_; _]. split_and!; [done|simpl; by rewrite <- app_assoc|done..]. }
  destruct (CreateNode_result _ _ _) eqn:Hnode; simpl.
  2: { eexists _, _, [_; _; _].
       split_and!; [done|simpl; by rewrite <- !app_assoc|done..]. }
  match goal with |- context [InitReadersImpl env ?wm] => set (w0 := wm) end.
  destruct (InitReadersImpl_outcome env w0 eq_refl eq_refl)
    as (w1 & evs & _ & _ & Htr & Hev & Hinit).
  simpl in Hinit. rewrite Hinit. clear Hinit.
  assert (EvAddChangeListener false ∉ evs) as Hnot.
  { intros Hin. rewrite Forall_forall in Hev. by apply Hev in Hin. }
  set (l := GetWriters_result env (trace w0)) in *.
  destruct (AddChangeListener_result env (trace w1)) eqn:Hconn; simpl.
  - eexists _, _, ([_; _; _] ++ evs ++ [_]). split_and!; [done| | |].
    + simpl. rewrite Htr. subst w0. simpl. by rewrite <- !app_assoc.
    + intros Hin. exfalso. apply Hnot.
      rewrite !elem_of_app, !elem_of_cons, elem_of_nil in Hin.
      intuition congruence.
    + intros _. by rewrite app_assoc, last_snoc.
  - eexists _, _, ([_; _; _] ++ evs ++ [_; _; _]).
    split_and!; [done| |done..].
    simpl. rewrite Htr. subst w0. simpl. by rewrite <- !app_assoc.
Qed.

Lemma not_selected_no_calls r c evs :
  ¬ selected r c → Forall (reconcile_event r) evs →
  List.filter (concerns c) evs = [].
Proof.
  intros Hsel. induction 1 as [|e evs He _ IH]; [done|]. simpl.
  destruct e; simpl in *; try done;
    (case_bool_decide; [by subst|done]).
Qed.

Lemma FindNewChannel_ignores_channel_vec env a vec w :
  all_channels_ (this w) = true →
  FindNewChannel env a (set_this (with_channel_vec vec) w)
  = match FindNewChannel env a w with
    | Some (u, w') => Some (u, set_this (with_channel_vec vec) w')
    | None => None
    end.
Proof.
  destruct w as [[] ? ?]. simpl. intros ->.
  unfold FindNewChannel, InitReaderImpl. unfold_M.
  cases.
Qed.

Lemma kept_books_trans w1 w2 w3 :
  kept_books w1 w2 → kept_books w2 w3 → kept_books w1 w3.
Proof. intros H1 H2 name. specialize (H1 name). specialize (H2 name). lia. Qed.

Lemma Start_kept_books env w b w' :
  Start env w = Some (b, w') → kept_books w w'.
Proof.
  unfold Start. unfold_M.
  destruct (Open_result _ _ _); simpl.
  2: { intros [= <- <-] name. count_subscriptions. }
  destruct (CreateNode_result _ _ _); simpl.
  2: { intros [= <- <-] name. count_subscriptions. }
  match goal with |- context [InitReadersImpl env ?wm] => set (w0 := wm) end.
  destruct (InitReadersImpl_outcome env w0 eq_refl eq_refl)
    as (w1 & evs & _ & Hrec & _ & _ & Hinit).
  simpl in Hinit. rewrite Hinit. clear Hinit.
  pose proof (rec_books _ _ Hrec) as Hb.
  destruct (AddChangeListener_result _ _); simpl; intros [= <- <-] name;
    specialize (Hb name); count_subscriptions.
Qed.

Lemma Stop_kept_books w b w' : Stop w = Some (b, w') → kept_books w w'.
Proof.
  unfold Stop, FreeReadersImpl. unfold_M.
  destruct (negb _ || _); simpl; [by intros [= <- <-] name|].
  destruct (writer_ _); [done|]. intros [= <- <-] name. count_subscriptions.
Qed.

Lemma callback_kept_books env channel_name message w w' :
  callback env channel_name message w = Some (tt, w') → kept_books w w'.
Proof.
  unfold callback, ReaderCallback. unfold_M. intros H name.
  cases; count_subscriptions.
Qed.

Lemma call_kept_books env c w w' :
  call env c w = Some (tt, w') → kept_books w w'.
Proof.
  destruct c; simpl.
  - unfold_M. destruct (Start env w) as [[b w1]|] eqn:HS; [|done].
    intros [= <-]. by eapply Start_kept_books.
  - unfold_M. destruct (Stop w) as [[b w1]|] eqn:HS; [|done].
    intros [= <-]. by eapply Stop_kept_books.
  - intros H%TopologyCallback_reconciled. exact (rec_books _ _ H).
  - apply callback_kept_books.
Qed.

Lemma session_kept_books env calls w w' :
  for_each (call env) calls w = Some (tt, w') → kept_books w w'.
Proof.
  revert w. induction calls as [|c calls IH]; intros w; simpl.
  - by intros [= <-] name.
  - unfold mbind, M_bind. destruct (call env c w) as [[[] w1]|] eqn:Hc; [|done].
    intros H. eapply kept_books_trans; [by eapply call_kept_books|by apply IH].
Qed.

(** A started session has its writer, whatever was called on it before. *)
Lemma Start_writer env w b w' :
  Start env w = Some (b, w') → writer_ (this w') = pointee.
Proof.
  unfold Start. unfold_M.
  destruct (Open_result _ _ _); simpl; [|by intros [= <- <-]].
  destruct (CreateNode_result _ _ _); simpl; [|by intros [= <- <-]].
  match goal with |- context [InitReadersImpl env ?wm] => set (w0 := wm) end.
  destruct (InitReadersImpl_outcome env w0 eq_refl eq_refl)
    as (w1 & evs & _ & Hrec & _ & _ & Hinit).
  simpl in Hinit. rewrite Hinit. clear Hinit.
  destruct (reconciled_pointers _ _ Hrec) as [Hw1 _].
  by destruct (AddChangeListener_result _ _); simpl; intros [= <- <-].
Qed.

Lemma call_started_has_writer env c w w' :
  call env c w = Some (tt, w') →
  (is_started_ (this w) = true → writer_ (this w) = pointee) →
  is_started_ (this w') = true → writer_ (this w') = pointee.
Proof.
  destruct c; simpl.
  - unfold_M. destruct (Start env w) as [[b w1]|] eqn:HS; [|done].
    intros [= <-] _ _. by eapply Start_writer.
  - unfold Stop, FreeReadersImpl. unfold_M. intros H. by cases.
  - intros H%TopologyCallback_reconciled. destruct H as [_ -> _ _ _]. auto.
  - unfold callback, ReaderCallback. unfold_M. intros H. by cases.
Qed.

Lemma calls_started_have_writer env calls w w' :
  for_each (call env) calls w = Some (tt, w') →
  (is_started_ (this w) = true → writer_ (this w) = pointee) →
  is_started_ (this w') = true → writer_ (this w') = pointee.
Proof.
  revert w. induction calls as [|c calls IH]; intros w; simpl.
  - by intros [= <-].
  - unfold mbind, M_bind. destruct (call env c w) as [[[] w1]|] eqn:Hc; [|done].
    intros Hrun Hinv. apply (IH w1 Hrun). by eapply call_started_has_writer.
Qed.

Lemma session_started_has_writer env calls output all_channels channel_vec
    record_conf managed w :
  for_each (call env) calls
    {| this := Recorder_ctor output all_channels channel_vec record_conf;
       owned := managed; trace := [] |} = Some (tt, w) →
  started (this w) = true → writer_ (this w) = pointee.
Proof.
  intros Hrun [Hs _]%andb_true_iff.
  by apply (calls_started_have_writer _ _ _ _ Hrun).
Qed.

(** ** The claims *)

(** C1: a delivery that finds the session not in state Started (not started,
    or stopping) calls [WriteMessage] never: [ReaderCallback] logs one error
    line and returns, and the delivery lambda around it leaves the list of
    [WriteMessage] calls as it was. *)
Theorem no_append_outside_started env message channel_name w :
  is_started_ (this w) = false ∨ is_stopping_ (this w) = true →
  ReaderCallback env message channel_name w
  = Some (tt, record (EvLog ERROR "record procedure is not started or stopping.") w)
  ∧ ∀ w', callback env channel_name message w = Some (tt, w') →
          List.filter is_append (trace w') = List.filter is_append (trace w).
Proof.
  intros H%not_started_iff. split; [by apply ReaderCallback_refused|].
  intros w'. unfold callback. unfold_M.
  destruct (owned w); simpl; [|by intros [= <-]].
  rewrite ReaderCallback_refused by done. simpl.
  destruct (writer_ _); [done|]. intros [= <-]. simpl.
  by rewrite !List.filter_app, !app_nil_r.
Qed.

Lemma no_append_outside_started_witness :
  is_stopping_ (this stopped_session) = true
  ∧ ReaderCallback (bus [chatter] true true true) (Some "P") "/chatter" stopped_session
    = Some (tt, record (EvLog ERROR "record procedure is not started or stopping.")
                  stopped_session).
Proof.
  split; [reflexivity|].
  apply (no_append_outside_started (bus [chatter] true true true) (Some "P")
           "/chatter" stopped_session).
  right. reflexivity.
Defined.

(** C2: however snapshot entries and change messages follow one another,
    the walk never fails once writer and node exist, and each successful
    [CreateReader] for a name puts that name into [channel_reader_map_]
    where there was none; a descriptor whose name the map already holds
    makes [FindNewChannel] return without any effect.  So over the whole
    life of a session, whatever is called on it and in whatever order, at
    most one reader is created per name. *)
Theorem at_most_one_subscription env (ns : list Notification) w :
  writer_ (this w) = pointee → node_ (this w) = pointee →
  ∃ w',
    for_each (notify env) ns w = Some (tt, w')
    ∧ (∀ name, subscriptions name (trace w') + held name (this w)
               = subscriptions name (trace w) + held name (this w'))
    ∧ (∀ a,
         ¬ absent_or_empty (attr_channel_name a) →
         ¬ absent_or_empty (attr_message_type a) →
         ¬ absent_or_empty (attr_proto_desc a) →
         selected (this w') (field_value (attr_channel_name a)) →
         is_Some (channel_reader_map_ (this w') !! field_value (attr_channel_name a)) →
         FindNewChannel env a w' = Some (tt, w'))
    ∧ (∀ calls output all_channels channel_vec record_conf managed w'',
         for_each (call env) calls
           {| this := Recorder_ctor output all_channels channel_vec record_conf;
              owned := managed; trace := [] |} = Some (tt, w'') →
         ∀ name, subscriptions name (trace w'') ≤ 1).
Proof.
  intros Hw Hn.
  destruct (for_each_reconciles (notify env) ns (notify_reconciled env)
              (notify_defined env) w Hw Hn) as (w' & Hrun & Hrec).
  exists w'. split_and!; [done|apply Hrec|..].
  - intros a H1 H2 H3 Hsel [rd Hrd].
    rewrite FindNewChannel_valid by done. simpl. rewrite Hrd.
    destruct Hsel as [Hall|Hin].
    + by rewrite Hall.
    + rewrite bool_decide_false, andb_false_r; [done|].
      rewrite not_found_iff. intros Hout. by apply Hout.
  - intros calls output all_channels channel_vec record_conf managed w'' Hcalls name.
    pose proof (session_kept_books _ _ _ _ Hcalls name) as Hb.
    unfold held in Hb. simpl in Hb. rewrite lookup_empty in Hb.
    destruct (channel_reader_map_ (this w'') !! name); simpl in Hb;
      unfold subscriptions in *; simpl in *; lia.
Qed.

Lemma at_most_one_subscription_witness :
  writer_ (this (idle_bus_started true [])) = pointee
  ∧ node_ (this (idle_bus_started true [])) = pointee
  ∧ ∃ w',
      for_each (notify (bus [] true true true))
        [ChangeEvent {| role_type := ROLE_WRITER; role_attr := chatter |};
         SnapshotEntry chatter;
         ChangeEvent {| role_type := ROLE_WRITER; role_attr := chatter |}]
        (idle_bus_started true []) = Some (tt, w')
      ∧ subscriptions "/chatter" (trace w') = 1.
Proof.
  split; [reflexivity|]. split; [reflexivity|].
  destruct (at_most_one_subscription (bus [] true true true)
              [ChangeEvent {| role_type := ROLE_WRITER; role_attr := chatter |};
               SnapshotEntry chatter;
               ChangeEvent {| role_type := ROLE_WRITER; role_attr := chatter |}]
              (idle_bus_started true []) eq_refl eq_refl) as (w' & Hrun & _).
  exists w'. split; [exact Hrun|].
  vm_compute in Hrun. injection Hrun as <-. reflexivity.
Defined.

(** C3, on the code: [Stop] on the session started with [/chatter] removes
    the change listener and closes the writer and nothing else; the reader
    of [/chatter] is still held when the writer is closed and after [Stop]
    has returned. *)
Theorem Stop_leaves_readers_subscribed :
  Stop chatter_session = Some (true, stopped_session)
  ∧ since chatter_session stopped_session = [EvRemoveChangeListener true; EvClose]
  ∧ channel_reader_map_ (this stopped_session) !! "/chatter"
    = Some {| reader_channel_name := "/chatter"; reader_pending_queue_size := 10 |}
  ∧ channel_reader_map_ (this stopped_session)
    = channel_reader_map_ (this chatter_session).
Proof. split_and!; reflexivity. Qed.

(** C4: with [all_channels_] false, a descriptor whose name is not in
    [channel_vec_] only makes [FindNewChannel] log a line, and over any run
    of notifications the name gets no reader and no [WriteChannel] or
    [CreateReader] call; with [all_channels_] true, [channel_vec_] has no
    influence on [FindNewChannel], and a valid descriptor goes on to the
    duplicate check and from there to registration and subscription. *)
Theorem selection_policy env a w :
  let c := field_value (attr_channel_name a) in
  (all_channels_ (this w) = false → c ∉ channel_vec_ (this w) →
   (∃ s line, FindNewChannel env a w = Some (tt, record (EvLog s line) w))
   ∧ ∀ ns, writer_ (this w) = pointee → node_ (this w) = pointee →
       ∃ w', for_each (notify env) ns w = Some (tt, w')
             ∧ channel_reader_map_ (this w') !! c = channel_reader_map_ (this w) !! c
             ∧ List.filter (concerns c) (trace w')
               = List.filter (concerns c) (trace w))
  ∧ (all_channels_ (this w) = true →
     (∀ vec, FindNewChannel env a (set_this (with_channel_vec vec) w)
             = match FindNewChannel env a w with
               | Some (u, w') => Some (u, set_this (with_channel_vec vec) w')
               | None => None
               end)
     ∧ (¬ absent_or_empty (attr_channel_name a) →
        ¬ absent_or_empty (attr_message_type a) →
        ¬ absent_or_empty (attr_proto_desc a) →
        FindNewChannel env a w
        = match channel_reader_map_ (this w) !! c with
          | Some _ => Some (tt, w)
          | None =>
              match writer_ (this w) with
              | nullptr => None
              | pointee =>
                  match InitReaderImpl env c (field_value (attr_message_type a))
                          (after_WriteChannel env a w) with
                  | Some (_, w') => Some (tt, w')
                  | None => None
                  end
              end
          end)).
Proof.
  intros c. split.
  - intros Hall Hout.
    assert (¬ selected (this w) c) as Hsel.
    { intros [H|H]; [congruence|done]. }
    split.
    + destruct (validity_dec a) as [Hbad|(H1 & H2 & H3)].
      * destruct (FindNewChannel_invalid env a w Hbad) as [line ->]. by eexists _, _.
      * rewrite FindNewChannel_valid by done. simpl. fold c.
        rewrite Hall, bool_decide_true by (by apply not_found_iff).
        by eexists _, _.
    + intros ns Hw Hn.
      destruct (for_each_reconciles (notify env) ns (notify_reconciled env)
                  (notify_defined env) w Hw Hn) as (w' & Hrun & Hrec).
      exists w'. split; [done|]. split.
      * destruct (rec_map _ _ Hrec c) as [E|[_ Hs]]; [done|]. by destruct Hsel.
      * destruct (rec_trace _ _ Hrec) as (evs & -> & Hev).
        by rewrite List.filter_app, (not_selected_no_calls _ _ _ Hsel Hev), app_nil_r.
  - intros Hall. split.
    + intros vec. by apply FindNewChannel_ignores_channel_vec.
    + intros H1 H2 H3. rewrite FindNewChannel_valid by done. simpl. fold c.
      by rewrite Hall.
Qed.

Lemma selection_policy_witness :
  (∃ w', for_each (notify (bus [] true true true))
           [SnapshotEntry {| attr_channel_name := Some "c";
                             attr_message_type := Some "T";
                             attr_proto_desc := Some "S" |};
            SnapshotEntry {| attr_channel_name := Some "a";
                             attr_message_type := Some "T";
                             attr_proto_desc := Some "S" |}]
           (idle_bus_started false ["a"; "b"]) = Some (tt, w')
         ∧ channel_reader_map_ (this w') !! "c" = None
         ∧ is_Some (channel_reader_map_ (this w') !! "a"))
  ∧ FindNewChannel (bus [] true true true)
      {| attr_channel_name := Some "c"; attr_message_type := Some "T";
         attr_proto_desc := Some "S" |}
      (set_this (with_channel_vec ["a"; "b"]) (idle_bus_started true []))
    = match FindNewChannel (bus [] true true true)
              {| attr_channel_name := Some "c"; attr_message_type := Some "T";
                 attr_proto_desc := Some "S" |} (idle_bus_started true []) with
      | Some (u, w') => Some (u, set_this (with_channel_vec ["a"; "b"]) w')
      | None => None
      end.
Proof.
  split.
  - destruct (selection_policy (bus [] true true true)
                {| attr_channel_name := Some "c"; attr_message_type := Some "T";
                   attr_proto_desc := Some "S" |}
                (idle_bus_started false ["a"; "b"])) as [Hexcl _].
    destruct Hexcl as [_ Hrun]; [reflexivity|by apply not_found_iff|].
    destruct (Hrun [SnapshotEntry {| attr_channel_name := Some "c";
                                     attr_message_type := Some "T";
                                     attr_proto_desc := Some "S" |};
                    SnapshotEntry {| attr_channel_name := Some "a";
                                     attr_message_type := Some "T";
                                     attr_proto_desc := Some "S" |}])
      as (w' & Hw' & Hmap & _); [reflexivity..|].
    exists w'. split; [exact Hw'|]. split; [exact Hmap|].
    vm_compute in Hw'. injection Hw' as <-. by eexists.
  - destruct (selection_policy (bus [] true true true)
                {| attr_channel_name := Some "c"; attr_message_type := Some "T";
                   attr_proto_desc := Some "S" |}
                (idle_bus_started true [])) as [_ Hall].
    destruct Hall as [Hvec _]; [reflexivity|]. apply Hvec.
Defined.

(** C5: a descriptor with an absent or empty name, message type or schema is
    turned away by [FindNewChannel] with a warning, whatever the selection
    policy: the recorder is unchanged, and no [WriteChannel] or
    [CreateReader] call is made for any channel. *)
Theorem invalid_descriptor_rejected env a w :
  absent_or_empty (attr_channel_name a) ∨ absent_or_empty (attr_message_type a)
  ∨ absent_or_empty (attr_proto_desc a) →
  ∃ line w',
    FindNewChannel env a w = Some (tt, w')
    ∧ w' = record (EvLog WARN line) w
    ∧ channel_reader_map_ (this w') = channel_reader_map_ (this w)
    ∧ ∀ name, List.filter (concerns name) (trace w')
              = List.filter (concerns name) (trace w).
Proof.
  intros H. destruct (FindNewChannel_invalid env a w H) as [line Hline].
  exists line, (record (EvLog WARN line) w). split_and!; try done.
  intros name. simpl. by rewrite List.filter_app, app_nil_r.
Qed.

Lemma invalid_descriptor_rejected_witness :
  ∃ line w',
    FindNewChannel (bus [] true true true)
      {| attr_channel_name := Some "/chatter"; attr_message_type := Some "T";
         attr_proto_desc := Some "" |} chatter_session = Some (tt, w')
    ∧ w' = record (EvLog WARN line) chatter_session
    ∧ channel_reader_map_ (this w') = channel_reader_map_ (this chatter_session)
    ∧ ∀ name, List.filter (concerns name) (trace w')
              = List.filter (concerns name) (trace chatter_session).
Proof.
  apply (invalid_descriptor_rejected (bus [] true true true)
           {| attr_channel_name := Some "/chatter"; attr_message_type := Some "T";
              attr_proto_desc := Some "" |} chatter_session).
  right. right. right. reflexivity.
Defined.

(** C6: [Stop] on a session that is not Started returns false and changes
    nothing; on a Started session it returns true after one listener removal
    and one writer close, and a second [Stop] right after it returns false
    and does nothing. *)
Theorem Stop_is_idempotent w :
  (started (this w) = true → writer_ (this w) = pointee) →
  ∃ w1,
    Stop w = Some (started (this w), w1)
    ∧ trace w1 = trace w ++
        (if started (this w)
         then [EvRemoveChangeListener (change_conn_ (this w)); EvClose]
         else [])
    ∧ (started (this w) = false → w1 = w)
    ∧ Stop w1 = Some (false, w1).
Proof.
  intros Hw. destruct (started (this w)) eqn:Hs.
  - exists (torn_down w). rewrite Stop_tears_down by auto.
    split_and!; try done.
    + simpl. by rewrite <- app_assoc.
    + apply Stop_refused, torn_down_not_started.
  - exists w. rewrite Stop_refused by done.
    split_and!; try done. by rewrite app_nil_r.
Qed.

Lemma Stop_is_idempotent_witness :
  started (this chatter_session) = true
  ∧ ∃ w1,
      Stop chatter_session = Some (true, w1)
      ∧ trace w1 = trace chatter_session ++ [EvRemoveChangeListener true; EvClose]
      ∧ Stop w1 = Some (false, w1).
Proof.
  split; [reflexivity|].
  destruct (Stop_is_idempotent chatter_session) as (w1 & H1 & H2 & _ & H3);
    [reflexivity|].
  exists w1. split_and!; assumption.
Defined.

(** C7: [InitReadersImpl] first walks the whole snapshot with
    [FindNewChannel], and only then registers the change listener: no
    registration happens during the walk, the one registration follows all
    its events, and the function returns whether the handle is connected.
    [Start] returns false whenever it registered a listener whose handle is
    not connected. *)
Theorem listener_registered_after_snapshot env w :
  writer_ (this w) = pointee → node_ (this w) = pointee →
  let role_attr_vec := GetWriters_result env (trace w) in
  ∃ w1 w2 evs,
    for_each (FindNewChannel env) role_attr_vec (record (EvGetWriters role_attr_vec) w)
    = Some (tt, w1)
    ∧ trace w1 = trace w ++ EvGetWriters role_attr_vec :: evs
    ∧ Forall (λ e, is_listener_registration e = false) evs
    ∧ (let conn := AddChangeListener_result env (trace w1) in
       InitReadersImpl env w = Some (conn, w2)
       ∧ trace w2 = trace w1 ++ EvAddChangeListener conn ::
           (if conn then [] else [EvLog ERROR "change connection is not connected"])
       ∧ change_conn_ (this w2) = conn
       ∧ channel_reader_map_ (this w2) = channel_reader_map_ (this w1))
    ∧ ∀ w0, ∃ b w',
        Start env w0 = Some (b, w')
        ∧ (EvAddChangeListener false ∈ since w0 w' → b = false).
Proof.
  intros Hw Hn l.
  destruct (InitReadersImpl_outcome env w Hw Hn)
    as (w1 & evs & Hrun & _ & Htr & Hev & Hinit).
  fold l in Hrun, Htr, Hinit. simpl in Hinit.
  eexists w1, _, evs. split; [done|]. split; [done|]. split; [|split].
  - eapply Forall_impl; [exact Hev|]. apply reconcile_event_not_registration.
  - simpl. split; [exact Hinit|].
    destruct (AddChangeListener_result _ _); simpl; [done|].
    by rewrite <- app_assoc.
  - intros w0. destruct (Start_outcome env w0) as (b & w' & evs' & HS & Htr' & Hf & _).
    exists b, w'. split; [done|]. by rewrite (since_app _ _ _ Htr').
Qed.

Lemma listener_registered_after_snapshot_witness :
  writer_ (this chatter_session) = pointee ∧ node_ (this chatter_session) = pointee
  ∧ ∃ w2, InitReadersImpl (bus [chatter] false true true) chatter_session
          = Some (false, w2).
Proof.
  split; [reflexivity|]. split; [reflexivity|].
  destruct (listener_registered_after_snapshot (bus [chatter] false true true)
              chatter_session eq_refl eq_refl)
    as (w1 & w2 & evs & _ & _ & _ & (Hinit & _) & _).
  exists w2. exact Hinit.
Defined.

(** C8: when [WriteChannel] fails for a descriptor that got through the
    validity, policy and duplicate checks, [FindNewChannel] logs the failure
    and calls [InitReaderImpl] all the same; a managed recorder then calls
    [CreateReader] and keeps the reader if there is one.  The walk over the
    remaining descriptors goes on from there. *)
Theorem failed_registration_does_not_abort env a rest w :
  let c := field_value (attr_channel_name a) in
  let t := field_value (attr_message_type a) in
  let d := field_value (attr_proto_desc a) in
  ¬ absent_or_empty (attr_channel_name a) → ¬ absent_or_empty (attr_message_type a) →
  ¬ absent_or_empty (attr_proto_desc a) →
  selected (this w) c → channel_reader_map_ (this w) !! c = None →
  writer_ (this w) = pointee → node_ (this w) = pointee →
  WriteChannel_result env (trace w) c t d = false →
  let w1 := record (EvLog ERROR ("write channel fail, channel:" +:+ c))
              (record (EvWriteChannel c t d false) w) in
  ∃ b w' w'',
    InitReaderImpl env c t w1 = Some (b, w')
    ∧ FindNewChannel env a w = Some (tt, w')
    ∧ (owned w = true →
       let q := reader_pending_queue_size_ (this w) in
       b = CreateReader_result env (trace w1) c q
       ∧ trace w' = trace w1 ++ EvCreateReader c q b ::
                      (if b then [] else [EvLog ERROR "Create reader failed."])
       ∧ (b = true → is_Some (channel_reader_map_ (this w') !! c)))
    ∧ for_each (FindNewChannel env) rest w' = Some (tt, w'')
    ∧ for_each (FindNewChannel env) (a :: rest) w = Some (tt, w'').
Proof.
  intros c t d H1 H2 H3 Hsel Hnone Hw Hn Hfail w1.
  assert (FindNewChannel env a w =
          match InitReaderImpl env c t w1 with
          | Some (_, w') => Some (tt, w') | None => None end) as Hfind.
  { rewrite FindNewChannel_valid by done. simpl. fold c t d.
    rewrite Hnone, Hw. unfold after_WriteChannel. fold c t d. rewrite Hfail.
    destruct Hsel as [Hall|Hin].
    - by rewrite Hall.
    - rewrite bool_decide_false, andb_false_r; [done|].
      rewrite not_found_iff. intros Hout. by apply Hout. }
  assert (∃ b w', InitReaderImpl env c t w1 = Some (b, w')
            ∧ (owned w = true →
               b = CreateReader_result env (trace w1) c (reader_pending_queue_size_ (this w))
               ∧ trace w' = trace w1 ++ EvCreateReader c (reader_pending_queue_size_ (this w)) b ::
                      (if b then [] else [EvLog ERROR "Create reader failed."])
               ∧ (b = true → is_Some (channel_reader_map_ (this w') !! c))))
    as (b & w' & Hinit & Hmanaged).
  { destruct (owned w) eqn:Ho.
    - rewrite InitReaderImpl_managed by done. simpl.
      destruct (CreateReader_result _ _ _ _) eqn:Hok; eexists _, _; (split; [done|]).
      + intros _. split_and!; try done. intros _. simpl.
        rewrite lookup_insert_eq. by eexists.
      + intros _. split_and!; try done. simpl. by rewrite <- app_assoc.
    - rewrite InitReaderImpl_unmanaged by done. by eexists _, _. }
  rewrite Hinit in Hfind.
  pose proof (FindNewChannel_reconciled _ _ _ _ Hfind) as Hrec.
  destruct (reconciled_pointers _ _ Hrec) as [Hw' Hn'].
  destruct (for_each_reconciles (FindNewChannel env) rest (FindNewChannel_reconciled env)
              (FindNewChannel_defined env) w') as (w'' & Hrest & _); [congruence..|].
  exists b, w', w''. split_and!; try done.
  simpl. unfold mbind, M_bind. by rewrite Hfind.
Qed.

Lemma failed_registration_does_not_abort_witness :
  ∃ b w' w'',
    InitReaderImpl (bus [] true false true) "/chatter" "T"
      (record (EvLog ERROR "write channel fail, channel:/chatter")
         (record (EvWriteChannel "/chatter" "T" "S" false) (idle_bus_started true [])))
    = Some (b, w')
    ∧ FindNewChannel (bus [] true false true) chatter (idle_bus_started true [])
      = Some (tt, w')
    ∧ for_each (FindNewChannel (bus [] true false true)) [chatter] w' = Some (tt, w'')
    ∧ for_each (FindNewChannel (bus [] true false true)) [chatter; chatter]
        (idle_bus_started true []) = Some (tt, w'').
Proof.
  destruct (failed_registration_does_not_abort (bus [] true false true) chatter
              [chatter] (idle_bus_started true []))
    as (b & w' & w'' & H1 & H2 & _ & H3 & H4).
  - intros [H|H]; discriminate.
  - intros [H|H]; discriminate.
  - intros [H|H]; discriminate.
  - left. reflexivity.
  - reflexivity.
  - reflexivity.
  - reflexivity.
  - reflexivity.
  - exists b, w', w''. split_and!; assumption.
Defined.

(** C9 fails on the code: after [Stop] a delivery on the live session
    discards the payload and still calls [ShowProgress]. *)
Lemma progress_without_append :
  ¬ progress_only_after_append (bus [chatter] true true true) "/chatter"
      (Some "P") stopped_session.
Proof.
  intros H.
  destruct (H (record EvShowProgress
                 (record (EvLog ERROR "record procedure is not started or stopping.")
                    stopped_session))) as (c & m & t & Hin).
  - reflexivity.
  - vm_compute. apply list_elem_of_In. right. by left.
  - vm_compute in Hin. apply list_elem_of_In in Hin.
    destruct Hin as [|[|[]]]; discriminate.
Qed.

(** C9, amended: on a live session with its writer, the delivery lambda
    calls [ShowProgress] once, after [ReaderCallback] has returned, whatever
    [ReaderCallback] did with the payload (appended it, failed to append it,
    or discarded it). *)
Theorem progress_after_every_delivery env channel_name message w :
  owned w = true → writer_ (this w) = pointee →
  ∃ w1 evs,
    ReaderCallback env message channel_name w = Some (tt, w1)
    ∧ trace w1 = trace w ++ evs
    ∧ (EvShowProgress ∉ evs)
    ∧ callback env channel_name message w = Some (tt, record EvShowProgress w1).
Proof.
  intros Ho Hw.
  destruct (ReaderCallback_defined env message channel_name w Hw)
    as (w1 & evs & Hrc & Hthis & Hown & Htr & Hev).
  exists w1, evs. split_and!; try done.
  - intros Hin. rewrite Forall_forall in Hev. by apply Hev in Hin.
  - unfold callback. unfold_M. rewrite Ho. simpl. rewrite Hrc. simpl.
    by rewrite Hthis, Hw.
Qed.

Lemma progress_after_every_delivery_witness :
  owned stopped_session = true ∧ writer_ (this stopped_session) = pointee
  ∧ ∃ w1 evs,
      ReaderCallback (bus [chatter] true true true) None "/chatter" stopped_session
      = Some (tt, w1)
      ∧ trace w1 = trace stopped_session ++ evs
      ∧ (EvShowProgress ∉ evs)
      ∧ callback (bus [chatter] true true true) "/chatter" None stopped_session
        = Some (tt, record EvShowProgress w1).
Proof.
  split; [reflexivity|]. split; [reflexivity|].
  apply (progress_after_every_delivery (bus [chatter] true true true) "/chatter"
           None stopped_session); reflexivity.
Defined.

(** C10: the destructor runs [Stop] and drops its result: on a Started
    session it removes the change listener and closes the writer, as [Stop]
    does, and on any other session it does nothing. *)
Theorem destructor_stops w :
  (started (this w) = true → writer_ (this w) = pointee) →
  ∃ w1,
    Stop w = Some (started (this w), w1)
    ∧ Recorder_dtor w = Some (tt, w1)
    ∧ trace w1 = trace w ++
        (if started (this w)
         then [EvRemoveChangeListener (change_conn_ (this w)); EvClose]
         else [])
    ∧ (started (this w) = false → w1 = w).
Proof.
  intros Hw. unfold Recorder_dtor. unfold_M. destruct (started (this w)) eqn:Hs.
  - exists (torn_down w). rewrite Stop_tears_down by auto.
    split_and!; try done. simpl. by rewrite <- app_assoc.
  - exists w. rewrite Stop_refused by done.
    split_and!; try done. by rewrite app_nil_r.
Qed.

Lemma destructor_stops_witness :
  started (this chatter_session) = true
  ∧ ∃ w1,
      Stop chatter_session = Some (true, w1)
      ∧ Recorder_dtor chatter_session = Some (tt, w1)
      ∧ trace w1 = trace chatter_session ++ [EvRemoveChangeListener true; EvClose].
Proof.
  split; [reflexivity|].
  destruct (destructor_stops chatter_session) as (w1 & H1 & H2 & H3 & _);
    [reflexivity|].
  exists w1. split_and!; assumption.
Defined.

(** The end-to-end scenario of the spec: one channel on the bus at [Start],
    one payload delivered while started, one after [Stop]. *)
Example end_to_end :
  (Start (bus [chatter] true true true);;
   callback (bus [chatter] true true true) "/chatter" (Some "P");;
   Stop;;
   callback (bus [chatter] true true true) "/chatter" (Some "Q"))
    (fresh true [])
  = Some (tt,
          {| this := this stopped_session; owned := true;
             trace :=
               [EvOpen "out.record" true;
                EvCreateNode "cyber_recorder_record_4711" true;
                EvGetWriters [chatter];
                EvWriteChannel "/chatter" "T" "S" true;
                EvCreateReader "/chatter" 10 true;
                EvAddChangeListener true;
                EvWriteMessage "/chatter" "P" 7 true;
                EvShowProgress;
                EvRemoveChangeListener true;
                EvClose;
                EvLog ERROR "record procedure is not started or stopping.";
                EvShowProgress] |}).
Proof. reflexivity. Qed.

(** ** Further properties of the code *)

(** *** How a session evolves *)

Lemma evolves_refl w : evolves w w.
Proof. split; auto. Qed.

Lemma evolves_trans w1 w2 w3 : evolves w1 w2 → evolves w2 w3 → evolves w1 w3.
Proof.
  intros [Ho1 Hp1 Ha1 Hv1 Hc1 Hs1 Hk1 Hn1 Hq1] [Ho2 Hp2 Ha2 Hv2 Hc2 Hs2 Hk2 Hn2 Hq2].
  split; try congruence; auto.
  - intros name rd H3. destruct (Hn2 name rd H3) as [H2|[Hsel ->]]; [by auto|].
    right. unfold selected, reader_for in *. by rewrite <- Ha1, <- Hv1, <- Hc1.
  - intros Hs. rewrite Hq2, Hq1; auto.
Qed.

Lemma evolves_record e w :
  (is_stopping_ (this w) = true → is_append e = false) → evolves w (record e w).
Proof.
  intros He. split; simpl; auto.
  intros Hs. rewrite List.filter_app. simpl. rewrite (He Hs). by rewrite app_nil_r.
Qed.

Lemma evolves_assign f w :
  output_ (f (this w)) = output_ (this w) →
  all_channels_ (f (this w)) = all_channels_ (this w) →
  channel_vec_ (f (this w)) = channel_vec_ (this w) →
  reader_pending_queue_size_ (f (this w)) = reader_pending_queue_size_ (this w) →
  (is_stopping_ (this w) = true → is_stopping_ (f (this w)) = true) →
  channel_reader_map_ (f (this w)) = channel_reader_map_ (this w) →
  evolves w (set_this f w).
Proof.
  intros Hp Ha Hv Hc Hs Hm. split; simpl; auto.
  - intros name rd. by rewrite Hm.
  - intros name rd. rewrite Hm. auto.
Qed.

(** Worlds built from [w] by recording events and assigning members. *)
Ltac evolve :=
  repeat first
    [ apply evolves_refl
    | eapply evolves_trans;
      [|first [ apply evolves_record; first [done|by intros; simpl in *; congruence]
              | by apply evolves_assign ]] ].

Lemma InitReaderImpl_evolves env c t w b w' :
  selected (this w) c → channel_reader_map_ (this w) !! c = None →
  InitReaderImpl env c t w = Some (b, w') → evolves w w'.
Proof.
  intros Hsel Hnone. unfold InitReaderImpl. unfold_M.
  destruct (owned w); simpl; [|intros [= <- <-]; evolve].
  destruct (node_ _); [done|]. simpl.
  destruct (CreateReader_result _ _ _ _); simpl; intros [= <- <-]; [|evolve].
  split; simpl; auto.
  - intros name rd H. rewrite lookup_insert_ne; [done|]. congruence.
  - intros name rd. rewrite lookup_insert.
    destruct (decide (c = name)) as [->|Hne]; [|auto].
    intros [= <-]. by right.
  - intros _. by rewrite List.filter_app, app_nil_r.
Qed.

Lemma FindNewChannel_evolves env a w w' :
  FindNewChannel env a w = Some (tt, w') → evolves w w'.
Proof.
  destruct (validity_dec a) as [Hbad|(H1 & H2 & H3)].
  { destruct (FindNewChannel_invalid env a w Hbad) as [line ->].
    intros [= <-]. evolve. }
  rewrite FindNewChannel_valid by done. simpl.
  destruct (negb _ && _) eqn:Hpol; [intros [= <-]; evolve|].
  destruct (_ !! _) eqn:Hmap; [intros [= <-]; evolve|].
  destruct (writer_ _); [done|].
  assert (selected (this w) (field_value (attr_channel_name a))) as Hsel.
  { unfold selected. apply andb_false_iff in Hpol as [Hall|Hin].
    - left. by destruct (all_channels_ _).
    - right. apply bool_decide_eq_false in Hin.
      destruct (decide (field_value (attr_channel_name a) ∈ channel_vec_ (this w)));
        [done|]. by apply not_found_iff in n. }
  destruct (InitReaderImpl _ _ _ _) as [[b w1]|] eqn:Hinit; [|done].
  intros [= <-]. eapply evolves_trans.
  2: { eapply InitReaderImpl_evolves; [| |exact Hinit];
       unfold after_WriteChannel; by destruct (WriteChannel_result _ _ _ _ _). }
  unfold after_WriteChannel. destruct (WriteChannel_result _ _ _ _ _); evolve.
Qed.

Lemma TopologyCallback_evolves env m w w' :
  TopologyCallback env m w = Some (tt, w') → evolves w w'.
Proof.
  unfold TopologyCallback. unfold_M.
  destruct (bool_decide _); simpl.
  - intros H%FindNewChannel_evolves. eapply evolves_trans; [|exact H]. evolve.
  - intros [= <-]. evolve.
Qed.

Lemma for_each_evolves {A} (f : A → M unit) (l : list A) :
  (∀ a w w', f a w = Some (tt, w') → evolves w w') →
  ∀ w w', for_each f l w = Some (tt, w') → evolves w w'.
Proof.
  intros Hf. induction l as [|a l IH]; intros w w'; simpl.
  - intros [= <-]. apply evolves_refl.
  - unfold mbind, M_bind. destruct (f a w) as [[[] w1]|] eqn:H1; [|done].
    intros H2. eapply evolves_trans; eauto.
Qed.

Lemma InitReadersImpl_evolves env w b w' :
  InitReadersImpl env w = Some (b, w') → evolves w w'.
Proof.
  unfold InitReadersImpl. unfold_M.
  destruct (for_each _ _ _) as [[[] w1]|] eqn:Hwalk; [|done]. simpl.
  apply (for_each_evolves _ _ (FindNewChannel_evolves env)) in Hwalk.
  destruct (AddChangeListener_result _ _); simpl; intros [= <- <-];
    (eapply evolves_trans; [|eapply evolves_trans; [exact Hwalk|]]); evolve.
Qed.

Lemma Start_evolves env w b w' : Start env w = Some (b, w') → evolves w w'.
Proof.
  unfold Start. unfold_M.
  destruct (Open_result _ _ _); simpl; [|intros [= <- <-]; evolve].
  destruct (CreateNode_result _ _ _); simpl; [|intros [= <- <-]; evolve].
  destruct (InitReadersImpl _ _) as [[ok w1]|] eqn:Hinit; [|done]. simpl.
  apply InitReadersImpl_evolves in Hinit.
  destruct ok; simpl; intros [= <- <-];
    (eapply evolves_trans; [|eapply evolves_trans; [exact Hinit|]]); evolve.
Qed.

Lemma Stop_evolves w b w' : Stop w = Some (b, w') → evolves w w'.
Proof.
  unfold Stop, FreeReadersImpl. unfold_M.
  destruct (negb _ || _); simpl; [intros [= <- <-]; evolve|].
  destruct (writer_ _); [done|]. intros [= <- <-]. evolve.
Qed.

Lemma callback_evolves env c message w w' :
  callback env c message w = Some (tt, w') → evolves w w'.
Proof.
  unfold callback, ReaderCallback. unfold_M.
  destruct (owned w); simpl; [|intros [= <-]; evolve].
  destruct (negb (is_started_ _) || is_stopping_ _) eqn:Hg; simpl.
  { destruct (writer_ _); [done|]. intros [= <-]. evolve. }
  apply orb_false_iff in Hg as [_ Hs].
  destruct message; simpl.
  2: { destruct (writer_ _); [done|]. intros [= <-]. evolve. }
  destruct (writer_ _) eqn:Hw; [done|]. simpl.
  destruct (WriteMessage_result _ _ _ _ _); simpl; rewrite Hw; intros [= <-]; evolve.
Qed.

Lemma call_evolves env c w w' : call env c w = Some (tt, w') → evolves w w'.
Proof.
  destruct c; simpl.
  - unfold_M. destruct (Start env w) as [[b w1]|] eqn:HS; [|done].
    intros [= <-]. by eapply Start_evolves.
  - unfold_M. destruct (Stop w) as [[b w1]|] eqn:HS; [|done].
    intros [= <-]. by eapply Stop_evolves.
  - apply TopologyCallback_evolves.
  - apply callback_evolves.
Qed.

Lemma session_evolves env calls w w' :
  for_each (call env) calls w = Some (tt, w') → evolves w w'.
Proof. apply for_each_evolves, call_evolves. Qed.

(** *** [Start] and [Stop] together *)

Lemma Start_members env w b w' :
  Start env w = Some (b, w') →
  is_started_ (this w') = b || is_started_ (this w)
  ∧ is_stopping_ (this w') = is_stopping_ (this w)
  ∧ writer_ (this w') = pointee
  ∧ (b = true → node_ (this w') = pointee ∧ change_conn_ (this w') = true).
Proof.
  unfold Start. unfold_M.
  destruct (Open_result _ _ _); simpl; [|by intros [= <- <-]].
  destruct (CreateNode_result _ _ _); simpl; [|by intros [= <- <-]].
  match goal with |- context [InitReadersImpl env ?wm] => set (w0 := wm) end.
  destruct (InitReadersImpl_outcome env w0 eq_refl eq_refl)
    as (w1 & evs & _ & Hrec & _ & _ & Hinit).
  simpl in Hinit. rewrite Hinit. clear Hinit.
  destruct Hrec as [_ Hthis _ _ _].
  destruct (AddChangeListener_result _ _); simpl; intros [= <- <-]; simpl;
    rewrite Hthis; simpl; by rewrite ?orb_true_r.
Qed.

(** X1: [Start] never dereferences a null pointer, whatever state the
    recorder is in, and it begins by opening the output even on a session
    that is started already.  It sets [is_started_] exactly when it returns
    true, never touches [is_stopping_], always leaves a writer behind, and
    returns true only with a node and a connected change listener. *)
Theorem Start_is_safe_and_marks_success env w :
  ∃ b w' opened rest,
    Start env w = Some (b, w')
    ∧ trace w' = trace w ++ EvOpen (output_ (this w)) opened :: rest
    ∧ is_started_ (this w') = b || is_started_ (this w)
    ∧ is_stopping_ (this w') = is_stopping_ (this w)
    ∧ writer_ (this w') = pointee
    ∧ (b = true → node_ (this w') = pointee ∧ change_conn_ (this w') = true).
Proof.
  destruct (Start_outcome env w) as (b & w' & evs & HS & Htr & _ & _).
  destruct (Start_members env w b w' HS) as (H1 & H2 & H3 & H4).
  assert (∃ opened rest, evs = EvOpen (output_ (this w)) opened :: rest)
    as (opened & rest & ->).
  { revert HS Htr. unfold Start. unfold_M.
    destruct (Open_result _ _ _); simpl.
    2: { intros [= <- <-]. simpl. intros Htr. rewrite <- app_assoc in Htr.
         apply app_inv_head in Htr as <-. by eexists _, _. }
    destruct (CreateNode_result _ _ _); simpl.
    2: { intros [= <- <-]. simpl. intros Htr. rewrite <- !app_assoc in Htr.
         apply app_inv_head in Htr as <-. by eexists _, _. }
    match goal with |- context [InitReadersImpl env ?wm] => set (w0 := wm) end.
    destruct (InitReadersImpl_outcome env w0 eq_refl eq_refl)
      as (w1 & evs1 & _ & _ & Htr1 & _ & Hinit).
    simpl in Hinit. rewrite Hinit. clear Hinit. subst w0. simpl in Htr1.
    destruct (AddChangeListener_result _ _); simpl; intros [= <- <-]; simpl;
      intros Htr; rewrite Htr1, <- !app_assoc in Htr;
      apply app_inv_head in Htr as <-; by eexists _, _. }
  by exists b, w', opened, rest.
Qed.



(** X7: after a [Start] that returned true on a session that was not
    stopping, [Stop] succeeds without a null dereference: it removes the
    connected listener, closes the writer, releases the node, marks the
    session stopping and keeps every reader. *)
Theorem Stop_after_Start_tears_down env w w' :
  is_stopping_ (this w) = false →
  Start env w = Some (true, w') →
  ∃ w'',
    Stop w' = Some (true, w'')
    ∧ trace w'' = trace w' ++ [EvRemoveChangeListener true; EvClose]
    ∧ node_ (this w'') = nullptr
    ∧ is_stopping_ (this w'') = true
    ∧ is_started_ (this w'') = true
    ∧ channel_reader_map_ (this w'') = channel_reader_map_ (this w').
Proof.
  intros Hs HS.
  destruct (Start_members env w true w' HS) as (H1 & H2 & H3 & H4).
  destruct H4 as [_ Hconn]; [done|].
  exists (torn_down w'). rewrite Stop_tears_down; [|unfold started; by rewrite H1, H2, Hs|done].
  split_and!; try done. simpl. by rewrite Hconn, <- app_assoc.
Qed.

Lemma Stop_after_Start_tears_down_witness :
  is_stopping_ (this (fresh true [])) = false
  ∧ Start (bus [chatter] true true true) (fresh true []) = Some (true, chatter_session)
  ∧ ∃ w'',
      Stop chatter_session = Some (true, w'')
      ∧ trace w'' = trace chatter_session ++ [EvRemoveChangeListener true; EvClose]
      ∧ node_ (this w'') = nullptr.
Proof.
  split; [reflexivity|]. split; [reflexivity|].
  destruct (Stop_after_Start_tears_down (bus [chatter] true true true)
              (fresh true []) chatter_session eq_refl eq_refl)
    as (w'' & H1 & H2 & H3 & _).
  exists w''. split_and!; assumption.
Defined.

(** *** Whole sessions *)

(** X2: no call on a session drops or replaces a reader: a reader held for
    a channel is the reader held for it after any sequence of [Start],
    [Stop], change messages and deliveries. *)
Theorem readers_are_never_dropped env calls w w' name rd :
  for_each (call env) calls w = Some (tt, w') →
  channel_reader_map_ (this w) !! name = Some rd →
  channel_reader_map_ (this w') !! name = Some rd.
Proof. intros Hrun. apply (ev_keep _ _ (session_evolves _ _ _ _ Hrun)). Qed.

Lemma readers_are_never_dropped_witness :
  ∃ w',
    for_each (call (bus [chatter] true true true))
      [OnMessage "/chatter" (Some "P"); CallStop; CallStart;
       OnMessage "/chatter" None]
      chatter_session = Some (tt, w')
    ∧ channel_reader_map_ (this w') !! "/chatter"
      = Some {| reader_channel_name := "/chatter"; reader_pending_queue_size := 10 |}.
Proof.
  destruct (for_each (call (bus [chatter] true true true))
              [OnMessage "/chatter" (Some "P"); CallStop; CallStart;
               OnMessage "/chatter" None] chatter_session)
    as [[[] w']|] eqn:Hrun; [|by vm_compute in Hrun].
  exists w'. split; [reflexivity|].
  apply (readers_are_never_dropped _ _ _ _ _ _ Hrun). reflexivity.
Defined.

(** X3: in a session that began with the constructor, every reader in
    [channel_reader_map_] is keyed by a channel the selection policy lets
    through, is bound to that channel name, and has the pending queue size
    of the configuration. *)
Theorem readers_are_for_selected_channels env calls output all_channels
    channel_vec record_conf managed w name rd :
  for_each (call env) calls
    {| this := Recorder_ctor output all_channels channel_vec record_conf;
       owned := managed; trace := [] |} = Some (tt, w) →
  channel_reader_map_ (this w) !! name = Some rd →
  (all_channels = true ∨ name ∈ channel_vec)
  ∧ rd = {| reader_channel_name := name; reader_pending_queue_size := record_conf |}.
Proof.
  intros Hrun Hrd.
  destruct (ev_new _ _ (session_evolves _ _ _ _ Hrun) name rd Hrd) as [H|H]; [|done].
  simpl in H. by rewrite lookup_empty in H.
Qed.

Lemma readers_are_for_selected_channels_witness :
  ∃ w,
    for_each (call (bus [chatter] true true true)) [CallStart; CallStop]
      (fresh false ["/chatter"]) = Some (tt, w)
    ∧ channel_reader_map_ (this w) !! "/chatter"
      = Some {| reader_channel_name := "/chatter"; reader_pending_queue_size := 10 |}
    ∧ (false = true ∨ "/chatter" ∈ ["/chatter"]).
Proof.
  destruct (for_each (call (bus [chatter] true true true)) [CallStart; CallStop]
              (fresh false ["/chatter"])) as [[[] w]|] eqn:Hrun;
    [|by vm_compute in Hrun].
  assert (channel_reader_map_ (this w) !! "/chatter"
          = Some {| reader_channel_name := "/chatter";
                    reader_pending_queue_size := 10 |}) as Hrd.
  { vm_compute in Hrun. by injection Hrun as <-. }
  exists w. split; [reflexivity|]. split; [exact Hrd|].
  apply (readers_are_for_selected_channels _ _ _ _ _ _ _ _ _ _ Hrun Hrd).
Defined.

(** X4: the output, the selection policy and the queue size given to the
    constructor are never changed by any call on the session. *)
Theorem construction_parameters_are_kept env calls w w' :
  for_each (call env) calls w = Some (tt, w') →
  output_ (this w') = output_ (this w)
  ∧ all_channels_ (this w') = all_channels_ (this w)
  ∧ channel_vec_ (this w') = channel_vec_ (this w)
  ∧ reader_pending_queue_size_ (this w') = reader_pending_queue_size_ (this w).
Proof. intros [] %session_evolves. by split_and!. Qed.

Lemma construction_parameters_are_kept_witness :
  ∃ w',
    for_each (call (bus [chatter] true true true))
      [CallStart; OnMessage "/chatter" (Some "P"); CallStop]
      (fresh false ["/chatter"]) = Some (tt, w')
    ∧ all_channels_ (this w') = false
    ∧ channel_vec_ (this w') = ["/chatter"].
Proof.
  destruct (for_each (call (bus [chatter] true true true))
              [CallStart; OnMessage "/chatter" (Some "P"); CallStop]
              (fresh false ["/chatter"])) as [[[] w']|] eqn:Hrun;
    [|by vm_compute in Hrun].
  destruct (construction_parameters_are_kept _ _ _ _ Hrun) as (_ & H2 & H3 & _).
  exists w'. split_and!; [reflexivity|exact H2|exact H3].
Defined.



(** *** Change messages and deliveries *)

(** X5: change messages whose role is not [ROLE_WRITER] never reach
    [FindNewChannel]: each of them costs two debug lines and nothing else,
    whatever descriptor it carries and even on a recorder that has no
    writer or node yet. *)
Theorem other_roles_are_ignored env (ms : list ChangeMsg) w :
  Forall (λ m, role_type m ≠ ROLE_WRITER) ms →
  ∃ w',
    for_each (TopologyCallback env) ms w = Some (tt, w')
    ∧ this w' = this w ∧ owned w' = owned w
    ∧ trace w' = trace w ++
        flat_map (λ _, [EvLog DEBUG "ChangeMsg in Topology Callback:";
                        EvLog DEBUG "Change message role type is not ROLE_WRITER."])
          ms.
Proof.
  intros Hms. revert w. induction Hms as [|m ms Hm _ IH]; intros w; simpl.
  - exists w. by rewrite app_nil_r.
  - unfold mbind, M_bind. unfold TopologyCallback at 1. unfold_M.
    rewrite bool_decide_false by done. simpl.
    destruct (IH (record (EvLog DEBUG "Change message role type is not ROLE_WRITER.")
                    (record (EvLog DEBUG "ChangeMsg in Topology Callback:") w)))
      as (w' & Hrun & Hthis & Hown & Htr).
    exists w'. split_and!; try done. rewrite Htr. simpl. by rewrite <- !app_assoc.
Qed.

Lemma other_roles_are_ignored_witness :
  ∃ w',
    for_each (TopologyCallback (bus [] true true true))
      [{| role_type := ROLE_OTHER 3; role_attr := chatter |}] (fresh true [])
    = Some (tt, w')
    ∧ this w' = this (fresh true []).
Proof.
  destruct (other_roles_are_ignored (bus [] true true true)
              [{| role_type := ROLE_OTHER 3; role_attr := chatter |}] (fresh true []))
    as (w' & H1 & H2 & _).
  - by repeat constructor.
  - by exists w'.
Defined.

(** X9: a delivery to a live, started session appends the payload once,
    under the channel name of the subscription and with the time of the
    call; a failed append is logged and not tried again, a null payload is
    logged and dropped.  The recorder itself is unchanged. *)
Theorem delivery_appends_once env channel_name message w :
  started (this w) = true → owned w = true → writer_ (this w) = pointee →
  ∃ w',
    callback env channel_name message w = Some (tt, w')
    ∧ this w' = this w
    ∧ trace w' = trace w ++
        match message with
        | None =>
            [EvLog ERROR ("message is nullptr, channel: " +:+ channel_name);
             EvShowProgress]
        | Some raw =>
            let now := Now_ToNanosecond env (trace w) in
            let ok := WriteMessage_result env (trace w) channel_name raw now in
            EvWriteMessage channel_name raw now ok
            :: (if ok then []
                else [EvLog ERROR ("write data fail, channel: " +:+ channel_name)])
            ++ [EvShowProgress]
        end.
Proof.
  intros Hs Ho Hw. unfold callback, ReaderCallback. unfold_M.
  rewrite Ho. simpl. rewrite lifecycle_guard, Hs. simpl.
  destruct message as [raw|]; simpl.
  - rewrite Hw. simpl.
    destruct (WriteMessage_result _ _ _ _ _); simpl; rewrite Hw;
      eexists; split_and!; try done; simpl; by rewrite <- !app_assoc.
  - rewrite Hw. eexists. split_and!; try done. simpl. by rewrite <- app_assoc.
Qed.

Lemma delivery_appends_once_witness :
  started (this chatter_session) = true ∧ owned chatter_session = true
  ∧ writer_ (this chatter_session) = pointee
  ∧ ∃ w',
      callback (bus [chatter] true true false) "/chatter" (Some "P") chatter_session
      = Some (tt, w')
      ∧ trace w' = trace chatter_session ++
          [EvWriteMessage "/chatter" "P" 7 false;
           EvLog ERROR "write data fail, channel: /chatter"; EvShowProgress].
Proof.
  split_and!; [reflexivity..|].
  destruct (delivery_appends_once (bus [chatter] true true false) "/chatter"
              (Some "P") chatter_session eq_refl eq_refl eq_refl)
    as (w' & H1 & _ & H3).
  exists w'. split; [exact H1|exact H3].
Defined.

(** *** Recorders that cannot subscribe *)

Lemma FindNewChannel_unmanaged env a w :
  owned w = false → writer_ (this w) = pointee →
  ∃ w', FindNewChannel env a w = Some (tt, w')
        ∧ this w' = this w ∧ owned w' = owned w
        ∧ List.filter is_CreateReader (trace w')
          = List.filter is_CreateReader (trace w).
Proof.
  intros Ho Hw.
  destruct (validity_dec a) as [Hbad|(H1 & H2 & H3)].
  { destruct (FindNewChannel_invalid env a w Hbad) as [line ->].
    eexists. split_and!; try done. simpl. by rewrite List.filter_app, app_nil_r. }
  rewrite FindNewChannel_valid by done. simpl.
  destruct (negb _ && _).
  { eexists. split_and!; try done. simpl. by rewrite List.filter_app, app_nil_r. }
  destruct (_ !! _); [by eexists|].
  rewrite Hw.
  rewrite InitReaderImpl_unmanaged
    by (unfold after_WriteChannel; by destruct (WriteChannel_result _ _ _ _ _)).
  eexists. split; [done|]. unfold after_WriteChannel.
  destruct (WriteChannel_result _ _ _ _ _); simpl; split_and!; try done;
    by rewrite !List.filter_app, !app_nil_r.
Qed.

(** X10: a recorder that no [shared_ptr] owns never subscribes.  Every
    notification is handled without failure, even without a node, but
    [shared_from_this] throws before [CreateReader] is reached: no
    [CreateReader] call is made and the recorder stays as it was. *)
Theorem unmanaged_recorder_never_subscribes env (ns : list Notification) w :
  owned w = false → writer_ (this w) = pointee →
  ∃ w',
    for_each (notify env) ns w = Some (tt, w')
    ∧ this w' = this w
    ∧ List.filter is_CreateReader (trace w')
      = List.filter is_CreateReader (trace w).
Proof.
  revert w. induction ns as [|n ns IH]; intros w Ho Hw; simpl.
  - by exists w.
  - assert (∃ w1, notify env n w = Some (tt, w1)
              ∧ this w1 = this w ∧ owned w1 = owned w
              ∧ List.filter is_CreateReader (trace w1)
                = List.filter is_CreateReader (trace w))
      as (w1 & H1 & Hthis & Hown & Htr).
    { destruct n as [a|m]; simpl; [by apply FindNewChannel_unmanaged|].
      unfold TopologyCallback. unfold_M. destruct (bool_decide _); simpl.
      - destruct (FindNewChannel_unmanaged env (role_attr m)
                    (record (EvLog DEBUG "ChangeMsg in Topology Callback:") w) Ho Hw)
          as (w1 & H1 & Hthis & Hown & Htr).
        exists w1. split_and!; try done.
        rewrite Htr. simpl. by rewrite List.filter_app, app_nil_r.
      - eexists. split_and!; try done. simpl.
        by rewrite !List.filter_app, !app_nil_r. }
    destruct (IH w1) as (w' & H2 & Hthis' & Htr'); [congruence..|].
    exists w'. unfold mbind, M_bind. rewrite H1. split_and!; congruence.
Qed.

Lemma unmanaged_recorder_never_subscribes_witness :
  owned unmanaged_session = false ∧ writer_ (this unmanaged_session) = pointee
  ∧ ∃ w',
      for_each (notify (bus [] true true true))
        [SnapshotEntry chatter;
         ChangeEvent {| role_type := ROLE_WRITER; role_attr := chatter |}]
        unmanaged_session = Some (tt, w')
      ∧ channel_reader_map_ (this w') = ∅.
Proof.
  split; [reflexivity|]. split; [reflexivity|].
  destruct (unmanaged_recorder_never_subscribes (bus [] true true true)
              [SnapshotEntry chatter;
               ChangeEvent {| role_type := ROLE_WRITER; role_attr := chatter |}]
              unmanaged_session eq_refl eq_refl) as (w' & H1 & H2 & _).
  exists w'. split; [exact H1|]. by rewrite H2.
Defined.

(** *** Subscriptions that fail, and subscriptions that succeed *)




Lemma FindNewChannel_subscribes env a w :
  owned w = true → writer_ (this w) = pointee → node_ (this w) = pointee →
  (∀ h c q, CreateReader_result env h c q = true) →
  ∃ w', FindNewChannel env a w = Some (tt, w')
        ∧ ∀ name, is_Some (channel_reader_map_ (this w') !! name)
                  ↔ is_Some (channel_reader_map_ (this w) !! name)
                    ∨ (usable a ∧ channel_of a = name ∧ selected (this w) name).
Proof.
  intros Ho Hw Hn Hok. unfold usable, channel_of.
  destruct (validity_dec a) as [Hbad|(H1 & H2 & H3)].
  { destruct (FindNewChannel_invalid env a w Hbad) as [line ->].
    eexists. split; [done|]. simpl. intros name. split; [auto|].
    intros [H|[(U1 & U2 & U3) _]]; [done|]. by destruct Hbad as [?|[?|?]]. }
  rewrite FindNewChannel_valid by done. simpl.
  destruct (negb _ && _) eqn:Hpol.
  { eexists. split; [done|]. simpl. intros name. split; [auto|].
    intros [H|(_ & <- & Hsel)]; [done|].
    apply andb_true_iff in Hpol as [Hall Hout].
    apply bool_decide_eq_true, not_found_iff in Hout.
    destruct Hsel as [Hsel|Hsel]; [|done]. rewrite Hsel in Hall. done. }
  assert (selected (this w) (field_value (attr_channel_name a))) as Hsel.
  { unfold selected. apply andb_false_iff in Hpol as [Hall|Hin].
    - left. by destruct (all_channels_ _).
    - right. apply bool_decide_eq_false in Hin.
      destruct (decide (field_value (attr_channel_name a) ∈ channel_vec_ (this w)));
        [done|]. by apply not_found_iff in n. }
  destruct (_ !! _) eqn:Hmap.
  { eexists. split; [done|]. intros name. split; [auto|].
    intros [H|(_ & <- & _)]; [done|]. by rewrite Hmap. }
  rewrite Hw.
  assert (this (after_WriteChannel env a w) = this w
          ∧ owned (after_WriteChannel env a w) = owned w) as [Hthis Hown].
  { unfold after_WriteChannel. by destruct (WriteChannel_result _ _ _ _ _). }
  rewrite InitReaderImpl_managed by congruence. simpl. rewrite Hok.
  eexists. split; [done|]. simpl. intros name. rewrite Hthis, lookup_insert.
  destruct (decide (field_value (attr_channel_name a) = name)) as [<-|Hne].
  - split; [|by eexists]. intros _. by right.
  - split; [auto|]. by intros [H|(_ & He & _)].
Qed.

(** X12: on a managed recorder whose node hands out every reader asked
    for, [InitReadersImpl] leaves [channel_reader_map_] holding exactly the
    channels held before together with the channels of the usable, selected
    descriptors of the snapshot: none of them is missed and nothing else is
    subscribed. *)
Theorem snapshot_channels_are_subscribed env w :
  owned w = true → writer_ (this w) = pointee → node_ (this w) = pointee →
  (∀ h c q, CreateReader_result env h c q = true) →
  ∃ b w',
    InitReadersImpl env w = Some (b, w')
    ∧ ∀ name,
        is_Some (channel_reader_map_ (this w') !! name)
        ↔ is_Some (channel_reader_map_ (this w) !! name)
          ∨ ∃ a, a ∈ GetWriters_result env (trace w)
                 ∧ usable a ∧ channel_of a = name ∧ selected (this w) name.
Proof.
  intros Ho Hw Hn Hok.
  assert (∀ l w0, owned w0 = true → writer_ (this w0) = pointee →
                  node_ (this w0) = pointee →
            ∃ w1, for_each (FindNewChannel env) l w0 = Some (tt, w1)
              ∧ ∀ name, is_Some (channel_reader_map_ (this w1) !! name)
                  ↔ is_Some (channel_reader_map_ (this w0) !! name)
                    ∨ ∃ a, a ∈ l ∧ usable a ∧ channel_of a = name
                           ∧ selected (this w0) name) as Hwalk.
  { induction l as [|a l IH]; intros w0 Ho0 Hw0 Hn0; simpl.
    - exists w0. split; [done|]. intros name. split; [auto|].
      intros [H|(a & Hin & _)]; [done|]. by apply elem_of_nil in Hin.
    - destruct (FindNewChannel_subscribes env a w0 Ho0 Hw0 Hn0 Hok) as (w1 & H1 & Hm1).
      pose proof (FindNewChannel_reconciled _ _ _ _ H1) as Hrec.
      destruct (reconciled_pointers _ _ Hrec) as [Hw1 Hn1].
      destruct (IH w1) as (w2 & H2 & Hm2);
        [by rewrite (rec_owned _ _ Hrec)|congruence..|].
      exists w2. unfold mbind, M_bind. rewrite H1. split; [done|].
      intros name. rewrite Hm2, Hm1.
      setoid_rewrite (selected_reconciled _ _ name Hrec).
      setoid_rewrite elem_of_cons. split.
      + intros [[H|(U & E & S)]|(b & Hin & U & E & S)]; eauto 10.
      + intros [H|(b & [->|Hin] & U & E & S)]; eauto 10. }
  destruct (Hwalk (GetWriters_result env (trace w))
              (record (EvGetWriters (GetWriters_result env (trace w))) w) Ho Hw Hn)
    as (w1 & Hrun & Hm).
  unfold InitReadersImpl. unfold_M. rewrite Hrun. simpl.
  destruct (AddChangeListener_result _ _); simpl; eexists _, _; (split; [done|]);
    exact Hm.
Qed.

Lemma snapshot_channels_are_subscribed_witness :
  ∃ b w',
    InitReadersImpl (bus [chatter] true true true) (idle_bus_started false ["/chatter"])
    = Some (b, w')
    ∧ is_Some (channel_reader_map_ (this w') !! "/chatter").
Proof.
  destruct (snapshot_channels_are_subscribed (bus [chatter] true true true)
              (idle_bus_started false ["/chatter"])) as (b & w' & H1 & H2);
    [reflexivity..|].
  exists b, w'. split; [exact H1|]. apply H2. right. exists chatter.
  split; [by left|]. split.
  - split_and!; intros [H|H]; discriminate.
  - split; [reflexivity|]. right. by left.
Defined.

(** *** Null pointers are not reached *)

Lemma FindNewChannel_needs_writer env a w w' :
  writer_ (this w) = nullptr → FindNewChannel env a w = Some (tt, w') →
  channel_reader_map_ (this w') = channel_reader_map_ (this w).
Proof.
  intros Hw.
  destruct (validity_dec a) as [Hbad|(H1 & H2 & H3)].
  { destruct (FindNewChannel_invalid env a w Hbad) as [line ->]. by intros [= <-]. }
  rewrite FindNewChannel_valid by done. simpl.
  destruct (negb _ && _); [by intros [= <-]|].
  destruct (_ !! _); [by intros [= <-]|]. by rewrite Hw.
Qed.

Lemma call_writer_in_place env c w w' :
  call env c w = Some (tt, w') → writer_in_place w → writer_in_place w'.
Proof.
  unfold writer_in_place. destruct c; simpl.
  - unfold_M. destruct (Start env w) as [[b w1]|] eqn:HS; [|done].
    intros [= <-] _ _. by eapply Start_writer.
  - unfold Stop, FreeReadersImpl. unfold_M. intros H. by cases.
  - unfold TopologyCallback. unfold_M. destruct (bool_decide _); simpl.
    + intros H Hinv Hw'.
      pose proof (FindNewChannel_reconciled _ _ _ _ H) as [_ Hthis _ _ _].
      destruct (writer_ (this w)) eqn:Hw.
      * apply FindNewChannel_needs_writer in H; [|done].
        rewrite Hthis in Hw'. simpl in *. rewrite H in Hw'. by apply Hinv in Hw'.
      * rewrite Hthis. simpl. done.
    + by intros [= <-].
  - unfold callback, ReaderCallback. unfold_M. intros H. by cases.
Qed.

Lemma session_writer_in_place env calls w w' :
  for_each (call env) calls w = Some (tt, w') →
  writer_in_place w → writer_in_place w'.
Proof.
  revert w. induction calls as [|c calls IH]; intros w; simpl.
  - by intros [= <-].
  - unfold mbind, M_bind. destruct (call env c w) as [[[] w1]|] eqn:Hc; [|done].
    intros Hrun Hinv. apply (IH w1 Hrun). by eapply call_writer_in_place.
Qed.

(** X13: in a session that began with the constructor, [Stop] and the
    destructor never dereference a null writer, whatever was called before
    and whether or not it succeeded. *)
Theorem Stop_is_safe_in_every_session env calls output all_channels channel_vec
    record_conf managed w :
  for_each (call env) calls
    {| this := Recorder_ctor output all_channels channel_vec record_conf;
       owned := managed; trace := [] |} = Some (tt, w) →
  ∃ w', Stop w = Some (started (this w), w') ∧ Recorder_dtor w = Some (tt, w').
Proof.
  intros Hrun. unfold Recorder_dtor. unfold_M.
  destruct (started (this w)) eqn:Hs.
  - rewrite Stop_tears_down; [by eexists|done|].
    by eapply session_started_has_writer.
  - rewrite Stop_refused by done. by eexists.
Qed.

Lemma Stop_is_safe_in_every_session_witness :
  ∃ w w',
    for_each (call (bus [chatter] false true true)) [CallStart; CallStart]
      (fresh true []) = Some (tt, w)
    ∧ Stop w = Some (started (this w), w')
    ∧ Recorder_dtor w = Some (tt, w').
Proof.
  destruct (for_each (call (bus [chatter] false true true)) [CallStart; CallStart]
              (fresh true [])) as [[[] w]|] eqn:Hrun; [|by vm_compute in Hrun].
  destruct (Stop_is_safe_in_every_session _ _ _ _ _ _ _ _ Hrun) as (w' & H1 & H2).
  by exists w, w'.
Defined.

(** X14: in a session that began with the constructor, a delivery on a
    channel that has a reader never dereferences a null writer: the lambda
    returns, leaves the recorder as it is and drops no reader. *)
Theorem delivery_is_safe_in_every_session env calls output all_channels
    channel_vec record_conf managed w channel_name message :
  for_each (call env) calls
    {| this := Recorder_ctor output all_channels channel_vec record_conf;
       owned := managed; trace := [] |} = Some (tt, w) →
  is_Some (channel_reader_map_ (this w) !! channel_name) →
  ∃ w', callback env channel_name message w = Some (tt, w') ∧ this w' = this w.
Proof.
  intros Hrun [rd Hrd].
  assert (writer_ (this w) = pointee) as Hw.
  { apply (session_writer_in_place _ _ _ _ Hrun); [by intros [?|?]|].
    right. intros Hempty. by rewrite Hempty, lookup_empty in Hrd. }
  destruct (ReaderCallback_defined env message channel_name w Hw)
    as (w1 & evs & Hrc & Hthis & _).
  unfold callback. unfold_M. destruct (owned w); simpl; [|by eexists].
  rewrite Hrc. simpl. rewrite Hthis, Hw. by eexists.
Qed.

Lemma delivery_is_safe_in_every_session_witness :
  ∃ w w',
    for_each (call (bus [chatter] false true true)) [CallStart] (fresh true [])
    = Some (tt, w)
    ∧ is_started_ (this w) = false
    ∧ callback (bus [chatter] false true true) "/chatter" (Some "P") w = Some (tt, w')
    ∧ this w' = this w.
Proof.
  destruct (for_each (call (bus [chatter] false true true)) [CallStart]
              (fresh true [])) as [[[] w]|] eqn:Hrun; [|by vm_compute in Hrun].
  assert (is_started_ (this w) = false
          ∧ is_Some (channel_reader_map_ (this w) !! "/chatter")) as [Hs Hrd].
  { vm_compute in Hrun. injection Hrun as <-. split; [reflexivity|by eexists]. }
  destruct (delivery_is_safe_in_every_session _ _ _ _ _ _ _ _ "/chatter" (Some "P")
              Hrun Hrd) as (w' & H1 & H2).
  by exists w, w'.
Defined.

(** X15: once no [shared_ptr] owns the recorder any more, deliveries do
    nothing at all: whatever the readers still hand to the lambda, the world
    is left exactly as it was, without a log line and without touching the
    writer. *)
Theorem deliveries_to_a_dead_session_do_nothing env
    (ds : list (string * option RawMessage)) w :
  owned w = false →
  for_each (λ d, callback env d.1 d.2) ds w = Some (tt, w).
Proof.
  intros Ho. induction ds as [|d ds IH]; simpl; [done|].
  unfold mbind, M_bind. unfold callback at 1. unfold_M. rewrite Ho. simpl.
  exact IH.
Qed.

Lemma deliveries_to_a_dead_session_do_nothing_witness :
  owned unmanaged_session = false
  ∧ for_each (λ d, callback (bus [] true true true) d.1 d.2)
      [("/chatter", Some "P"); ("/chatter", None)] unmanaged_session
    = Some (tt, unmanaged_session).
Proof.
  split; [reflexivity|].
  apply (deliveries_to_a_dead_session_do_nothing (bus [] true true true)
           [("/chatter", Some "P"); ("/chatter", None)] unmanaged_session).
  reflexivity.
Defined.
